(** * stdlog: the flag-driven logger accessor of mehrvarz/log

    A shallow embedding of [stdlog/stdlog.go].  The package keeps four
    package-level variables (the logger handle and three flag pointers),
    registers three command-line flags in [init], and offers four accessors
    [GetFromFlags], [GetFromFlagsDate], [GetFromFlagsWriter] and
    [GetFromFlagsDateWriter] that build the logger on first use.

    Go's package-level variables become fields of an explicit [State]; a
    panic or a process exit becomes the [Err] outcome of a small
    state-and-error monad. *)

From stdpp Require Import gmap strings list fin_maps.

Open Scope string_scope.

(** ** Package [log]: the severity scale *)

Module log.

(** Modelled from the spec: the type [log.Level] is declared outside
    [stdlog.go].  Eight RFC 5424 severities in increasing order, and the
    sentinel [None] that ranks above all of them. *)
Inductive Level : Set :=
| Debug | Info | Notice | Warning | Error | Critical | Alert | Emergency
| None.

Definition rank (l : Level) : nat :=
  match l with
  | Debug => 0 | Info => 1 | Notice => 2 | Warning => 3 | Error => 4
  | Critical => 5 | Alert => 6 | Emergency => 7 | None => 8
  end.

End log.

#[global] Instance Level_eq_dec : EqDecision log.Level.
Proof. solve_decision. Defined.

(** ** Outcomes *)

(** The ways a call can fail to return.  [InvalidPointer] has no Go
    counterpart (a non-nil Go pointer always addresses a cell); the model
    keeps it apart so that it can be shown unreachable. *)
Inductive Panic : Set :=
| NilDereference
| InvalidLevelName
| FlagRedefined
| FlagExit
| InvalidPointer.

Inductive result (A : Type) : Type :=
| Ok (a : A)
| Err (e : Panic).
Arguments Ok {A} a.
Arguments Err {A} e.

(** ** Package [os]: the sinks *)

Inductive Stream : Set :=
| Stdout
| Stderr
| File (path : string).

(** A caller-supplied line writer, [func(io.Writer, []byte, log.Level)]:
    the bytes it sends to the sink it is handed. *)
Definition Writer : Type := Stream → string → log.Level → string.

(** ** The logger objects the accessors build

    The constructors of packages [golog] and [buflog] live outside
    [stdlog.go]; an object records which constructor built it and from
    which arguments. *)
Inductive Logger : Type :=
| golog_New (out : Stream) (threshold : log.Level)
| golog_NewDate (out : Stream) (threshold : log.Level)
| golog_NewWriter (out : Stream) (threshold : log.Level) (myWriter : Writer)
| golog_NewDateWriter (out : Stream) (threshold : log.Level) (myWriter : Writer)
| buflog_New (out : Stream) (threshold flushThreshold : log.Level).

Definition isDirect (l : Logger) : bool :=
  match l with buflog_New _ _ _ => false | _ => true end.

Definition isBuffered (l : Logger) : bool :=
  match l with buflog_New _ _ _ => true | _ => false end.

Definition lineWriter (l : Logger) : option Writer :=
  match l with
  | golog_NewWriter _ _ w | golog_NewDateWriter _ _ w => Some w
  | _ => None
  end.

(** ** Package [flag], as far as [stdlog] uses it *)

Module flag.

Inductive Value : Set :=
| stringValue (s : string)
| boolValue (b : bool).

Record Flag : Set := mkFlag { Usage : string; Val : Value; DefValue : Value }.

(** [strconv.ParseBool] *)
Definition ParseBool (s : string) : option bool :=
  if bool_decide (s ∈ ["1"; "t"; "T"; "TRUE"; "true"; "True"]) then Some true
  else if bool_decide (s ∈ ["0"; "f"; "F"; "FALSE"; "false"; "False"]) then Some false
  else None.

(** One [-name=value] assignment of the command line. *)
Definition set1 (formal : gmap string Flag) (name value : string)
  : option (gmap string Flag) :=
  f ← formal !! name;
  v ← match Val f with
      | stringValue _ => Some (stringValue value)
      | boolValue _ => boolValue <$> ParseBool value
      end;
  Some (<[name := mkFlag (Usage f) v (DefValue f)]> formal).

Fixpoint parseAll (formal : gmap string Flag) (args : list (string * string))
  : option (gmap string Flag) :=
  match args with
  | [] => Some formal
  | (name, value) :: rest => formal' ← set1 formal name value; parseAll formal' rest
  end.

End flag.

(** ** The state of the process *)

(** A handle is the address of a constructed logger. *)
Definition Handle : Set := nat.

(** A flag pointer ([*string], [*bool]) addresses the value cell of the
    flag it was obtained for. *)
Definition Ptr : Set := string.

Record State : Type := mkState {
  (* package flag: the CommandLine flag set and os.Args[1:] *)
  CommandLine : gmap string flag.Flag;
  Parsed : bool;
  osArgs : list (string * string);
  (* package stdlog *)
  logger : option Handle;
  thresholdName : option Ptr;
  logToStderr : option Ptr;
  flushThresholdName : option Ptr;
  (* the loggers constructed so far *)
  heap : list Logger
}.

Definition set_CommandLine (m : gmap string flag.Flag) (p : bool) (s : State) : State :=
  mkState m p (osArgs s) (logger s) (thresholdName s) (logToStderr s)
          (flushThresholdName s) (heap s).
Definition set_logger (l : option Handle) (s : State) : State :=
  mkState (CommandLine s) (Parsed s) (osArgs s) l (thresholdName s) (logToStderr s)
          (flushThresholdName s) (heap s).
Definition set_thresholdName (p : option Ptr) (s : State) : State :=
  mkState (CommandLine s) (Parsed s) (osArgs s) (logger s) p (logToStderr s)
          (flushThresholdName s) (heap s).
Definition set_logToStderr (p : option Ptr) (s : State) : State :=
  mkState (CommandLine s) (Parsed s) (osArgs s) (logger s) (thresholdName s) p
          (flushThresholdName s) (heap s).
Definition set_flushThresholdName (p : option Ptr) (s : State) : State :=
  mkState (CommandLine s) (Parsed s) (osArgs s) (logger s) (thresholdName s)
          (logToStderr s) p (heap s).
Definition set_heap (h : list Logger) (s : State) : State :=
  mkState (CommandLine s) (Parsed s) (osArgs s) (logger s) (thresholdName s)
          (logToStderr s) (flushThresholdName s) h.

(** The process before any package initialiser has run. *)
Definition boot (args : list (string * string)) : State :=
  mkState ∅ false args None None None None [].

(** ** The state-and-error monad *)

Definition M (A : Type) : Type := State → result (A * State).

Definition ret {A} (a : A) : M A := λ s, Ok (a, s).

Definition bind {A B} (m : M A) (k : A → M B) : M B :=
  λ s, match m s with
       | Ok (a, s') => k a s'
       | Err e => Err e
       end.

(** The value of [o], or a panic with [e] when there is none. *)
Definition orPanic {A} (e : Panic) (o : option A) : M A :=
  λ s, match o with Some a => Ok (a, s) | None => Err e end.

Definition modify (f : State → State) : M unit := λ s, Ok (tt, f s).

Definition gets {A} (f : State → A) : M A := λ s, Ok (f s, s).

(** The state [m] leaves behind when run from [s]. *)
Definition after {A} (m : M A) (s : State) : State :=
  match m s with
  | Ok (_, s') => s'
  | Err _ => s
  end.

#[global] Instance M_ret : MRet M := @ret.
#[global] Instance M_bind : MBind M := λ A B k m, bind m k.

(** Reading through a flag pointer held in a package variable. *)
Definition loadString (var : State → option Ptr) : M string :=
  λ s, match var s with
       | None => Err NilDereference
       | Some p =>
           match flag.Val <$> CommandLine s !! p with
           | Some (flag.stringValue v) => Ok (v, s)
           | _ => Err InvalidPointer
           end
       end.

Definition loadBool (var : State → option Ptr) : M bool :=
  λ s, match var s with
       | None => Err NilDereference
       | Some p =>
           match flag.Val <$> CommandLine s !! p with
           | Some (flag.boolValue b) => Ok (b, s)
           | _ => Err InvalidPointer
           end
       end.

(** Constructing a logger allocates a fresh object. *)
Definition new (obj : Logger) : M Handle :=
  λ s, Ok (length (heap s), set_heap (heap s ++ [obj]) s).

(** [flag.String] and [flag.Bool]: define the flag, return the pointer to
    its value; defining a name twice panics. *)
Definition flag_define (name : string) (value : flag.Value) (usage : string) : M Ptr :=
  λ s, match CommandLine s !! name with
       | Some _ => Err FlagRedefined
       | None => Ok (name, set_CommandLine
                             (<[name := flag.mkFlag usage value value]> (CommandLine s))
                             (Parsed s) s)
       end.

Definition flag_String (name value usage : string) : M Ptr :=
  flag_define name (flag.stringValue value) usage.

Definition flag_Bool (name : string) (value : bool) (usage : string) : M Ptr :=
  flag_define name (flag.boolValue value) usage.

(** [flag.Parse]: the CommandLine set exits the process on a bad argument. *)
Definition flag_Parse : M unit :=
  λ s, match flag.parseAll (CommandLine s) (osArgs s) with
       | Some m => Ok (tt, set_CommandLine m true s)
       | None => Err FlagExit
       end.

(** ** Package [stdlog] *)

(** [getStream] *)
Definition getStream (logToStderr : bool) : Stream :=
  if logToStderr then Stderr else Stdout.

(** [init] *)
Definition init : M unit :=
  p ← flag_String "log" "info" "sets the logging threshold";
  modify (set_thresholdName (Some p));;
  p ← flag_Bool "stderr" false "outputs to standard error (stderr)";
  modify (set_logToStderr (Some p));;
  p ← flag_String "flushlog" "none" "sets the flush trigger level";
  modify (set_flushThresholdName (Some p)).

(** Package variable [var] points at a flag whose current value is [v]. *)
Definition holds (s : State) (var : State → option Ptr) (v : flag.Value) : Prop :=
  ∃ p f, var s = Some p ∧ CommandLine s !! p = Some f ∧ flag.Val f = v.

(** Two flag values of the same Go type. *)
Definition sameKind (v v' : flag.Value) : Prop :=
  match v, v' with
  | flag.stringValue _, flag.stringValue _ | flag.boolValue _, flag.boolValue _ => True
  | _, _ => False
  end.

(** The handle is set, or the three flag pointers are set and address
    values of their types. *)
Definition wired (s : State) : Prop :=
  is_Some (logger s) ∨
  ((∃ v, holds s thresholdName (flag.stringValue v)) ∧
   (∃ b, holds s logToStderr (flag.boolValue b)) ∧
   (∃ v, holds s flushThresholdName (flag.stringValue v))).

(** The process once the package initialiser has run. *)
Definition start (args : list (string * string)) : result (unit * State) :=
  init (boot args).

Section stdlog.

(** [golog.GetLevelFromName] is defined outside [stdlog.go]: the accessors
    are taken over an arbitrary resolver, which yields a level or fails;
    its failure is the panic [InvalidLevelName]. *)
Variable GetLevelFromName : string → option log.Level.

(** [GetFromFlags] *)
Definition GetFromFlags : M (option Handle) :=
  l ← gets logger;
  if l is Some _ then mret l else
  p ← gets Parsed;
  (if (p : bool) then mret () else flag_Parse);;

  name ← loadString thresholdName;
  threshold ← orPanic InvalidLevelName (GetLevelFromName name);
  modify (set_thresholdName None);;

  b ← loadBool logToStderr;
  let out := getStream (b : bool) in
  modify (set_logToStderr None);;

  name ← loadString flushThresholdName;
  flushThreshold ← orPanic InvalidLevelName (GetLevelFromName name);
  modify (set_flushThresholdName None);;

  (if decide (flushThreshold = log.None) then
     h ← new (golog_New out threshold);
     modify (set_logger (Some h))
   else
     h ← new (buflog_New out threshold flushThreshold);
     modify (set_logger (Some h)));;

  gets logger.

(** [GetFromFlagsDate] *)
Definition GetFromFlagsDate : M (option Handle) :=
  l ← gets logger;
  if l is Some _ then mret l else
  p ← gets Parsed;
  (if (p : bool) then mret () else flag_Parse);;

  name ← loadString thresholdName;
  threshold ← orPanic InvalidLevelName (GetLevelFromName name);
  modify (set_thresholdName None);;

  b ← loadBool logToStderr;
  let out := getStream (b : bool) in
  modify (set_logToStderr None);;

  name ← loadString flushThresholdName;
  flushThreshold ← orPanic InvalidLevelName (GetLevelFromName name);
  modify (set_flushThresholdName None);;

  (if decide (flushThreshold = log.None) then
     h ← new (golog_NewDate out threshold);
     modify (set_logger (Some h))
   else
     h ← new (buflog_New out threshold flushThreshold);
     modify (set_logger (Some h)));;

  gets logger.

(** [GetFromFlagsWriter] *)
Definition GetFromFlagsWriter (myWriter : Writer) : M (option Handle) :=
  l ← gets logger;
  if l is Some _ then mret l else
  p ← gets Parsed;
  (if (p : bool) then mret () else flag_Parse);;

  name ← loadString thresholdName;
  threshold ← orPanic InvalidLevelName (GetLevelFromName name);
  modify (set_thresholdName None);;

  b ← loadBool logToStderr;
  let out := getStream (b : bool) in
  modify (set_logToStderr None);;

  name ← loadString flushThresholdName;
  flushThreshold ← orPanic InvalidLevelName (GetLevelFromName name);
  modify (set_flushThresholdName None);;

  (if decide (flushThreshold = log.None) then
     h ← new (golog_NewWriter out threshold myWriter);
     modify (set_logger (Some h))
   else
     h ← new (buflog_New out threshold flushThreshold);
     modify (set_logger (Some h)));;

  gets logger.

(** [GetFromFlagsDateWriter] *)
Definition GetFromFlagsDateWriter (myWriter : Writer) : M (option Handle) :=
  l ← gets logger;
  if l is Some _ then mret l else
  p ← gets Parsed;
  (if (p : bool) then mret () else flag_Parse);;

  name ← loadString thresholdName;
  threshold ← orPanic InvalidLevelName (GetLevelFromName name);
  modify (set_thresholdName None);;

  b ← loadBool logToStderr;
  let out := getStream (b : bool) in
  modify (set_logToStderr None);;

  name ← loadString flushThresholdName;
  flushThreshold ← orPanic InvalidLevelName (GetLevelFromName name);
  modify (set_flushThresholdName None);;

  (if decide (flushThreshold = log.None) then
     h ← new (golog_NewDateWriter out threshold myWriter);
     modify (set_logger (Some h))
   else
     h ← new (buflog_New out threshold flushThreshold);
     modify (set_logger (Some h)));;

  gets logger.

(** *** The accessors as one sequential program

    The four accessors share their text up to the constructor used when the
    flush threshold is [log.None].  [ensureParsed] is lines 76-78,
    [resolveFlags] lines 76-87 of [GetFromFlags] (and the same lines of the
    other three). *)

Definition ensureParsed : M unit :=
  p ← gets Parsed;
  if (p : bool) then mret () else flag_Parse.

Definition resolveFlags : M (log.Level * Stream * log.Level) :=
  ensureParsed;;
  name ← loadString thresholdName;
  threshold ← orPanic InvalidLevelName (GetLevelFromName name);
  modify (set_thresholdName None);;
  b ← loadBool logToStderr;
  modify (set_logToStderr None);;
  name ← loadString flushThresholdName;
  flushThreshold ← orPanic InvalidLevelName (GetLevelFromName name);
  modify (set_flushThresholdName None);;
  mret (threshold, getStream b, flushThreshold).

Inductive Call : Type :=
| CallGetFromFlags
| CallGetFromFlagsDate
| CallGetFromFlagsWriter (myWriter : Writer)
| CallGetFromFlagsDateWriter (myWriter : Writer).

Definition call (c : Call) : M (option Handle) :=
  match c with
  | CallGetFromFlags => GetFromFlags
  | CallGetFromFlagsDate => GetFromFlagsDate
  | CallGetFromFlagsWriter w => GetFromFlagsWriter w
  | CallGetFromFlagsDateWriter w => GetFromFlagsDateWriter w
  end.

(** The constructor an accessor uses on its [flushThreshold == log.None]
    branch. *)
Definition direct (c : Call) (out : Stream) (threshold : log.Level) : Logger :=
  match c with
  | CallGetFromFlags => golog_New out threshold
  | CallGetFromFlagsDate => golog_NewDate out threshold
  | CallGetFromFlagsWriter w => golog_NewWriter out threshold w
  | CallGetFromFlagsDateWriter w => golog_NewDateWriter out threshold w
  end.

Definition constructed (c : Call) (threshold : log.Level) (out : Stream)
    (flushThreshold : log.Level) : Logger :=
  if decide (flushThreshold = log.None) then direct c out threshold
  else buflog_New out threshold flushThreshold.

(** A sequence of calls made one after the other; a panic ends the run. *)
Fixpoint calls (cs : list Call) : M (list (option Handle)) :=
  match cs with
  | [] => mret []
  | c :: cs => r ← call c; rs ← calls cs; mret (r :: rs)
  end.

(** *** Goroutines

    For calls made from several goroutines the accessor is run one source
    statement at a time.  A goroutine is at a statement of the accessor's
    body and holds the locals assigned so far; line numbers are those of
    [GetFromFlags], the other three accessors having the same shape. *)

Inductive Goroutine : Type :=
| AtGuard                                                  (* line 73 *)
| AtParse                                                  (* line 76 *)
| AtThreshold                                              (* line 80 *)
| AtThresholdNil (threshold : log.Level)                   (* line 81 *)
| AtOut (threshold : log.Level)                            (* line 83 *)
| AtOutNil (threshold : log.Level) (out : Stream)          (* line 84 *)
| AtFlush (threshold : log.Level) (out : Stream)           (* line 86 *)
| AtFlushNil (threshold : log.Level) (out : Stream) (flushThreshold : log.Level)
                                                           (* line 87 *)
| AtConstruct (threshold : log.Level) (out : Stream) (flushThreshold : log.Level)
                                                           (* lines 89-93 *)
| AtReturn                                                 (* line 95 *)
| Returned (l : option Handle)
| Panicked (e : Panic).

(** Running statement [m] and moving on to [next]. *)
Definition exec {A} (m : M A) (next : A → Goroutine) (s : State) : Goroutine * State :=
  match m s with
  | Ok (a, s') => (next a, s')
  | Err e => (Panicked e, s)
  end.

(** One statement of accessor [c]. *)
Definition step (c : Call) (g : Goroutine) (s : State) : Goroutine * State :=
  match g with
  | AtGuard =>
      exec (gets logger) (λ l, if l is Some _ then Returned l else AtParse) s
  | AtParse =>
      exec ensureParsed (λ _, AtThreshold) s
  | AtThreshold =>
      exec (name ← loadString thresholdName; orPanic InvalidLevelName (GetLevelFromName name))
           AtThresholdNil s
  | AtThresholdNil threshold =>
      exec (modify (set_thresholdName None)) (λ _, AtOut threshold) s
  | AtOut threshold =>
      exec (loadBool logToStderr) (λ b, AtOutNil threshold (getStream b)) s
  | AtOutNil threshold out =>
      exec (modify (set_logToStderr None)) (λ _, AtFlush threshold out) s
  | AtFlush threshold out =>
      exec (name ← loadString flushThresholdName; orPanic InvalidLevelName (GetLevelFromName name))
           (AtFlushNil threshold out) s
  | AtFlushNil threshold out flushThreshold =>
      exec (modify (set_flushThresholdName None))
           (λ _, AtConstruct threshold out flushThreshold) s
  | AtConstruct threshold out flushThreshold =>
      exec (h ← new (constructed c threshold out flushThreshold);
            modify (set_logger (Some h)))
           (λ _, AtReturn) s
  | AtReturn =>
      exec (gets logger) Returned s
  | Returned _ | Panicked _ => (g, s)
  end.

(** A goroutine running alone for [n] statements; the body has ten. *)
Fixpoint run (n : nat) (c : Call) (g : Goroutine) (s : State) : Goroutine * State :=
  match n with
  | 0 => (g, s)
  | S n => let '(g', s') := step c g s in run n c g' s'
  end.

Definition solo (c : Call) (s : State) : Goroutine * State :=
  run 10 c AtGuard s.

(** Goroutines sharing the package variables; a schedule names, statement
    by statement, the goroutine that runs next. *)
Definition Pool : Type := list (Call * Goroutine) * State.

Definition stepAt (i : nat) (p : Pool) : Pool :=
  match p.1 !! i with
  | Some (c, g) => let '(g', s') := step c g p.2 in (<[i := (c, g')]> p.1, s')
  | None => p
  end.

Definition schedule (sched : list nat) (p : Pool) : Pool :=
  foldl (λ p i, stepAt i p) p sched.

Definition spawn (cs : list Call) (s : State) : Pool :=
  ((λ c, (c, AtGuard)) <$> cs, s).

End stdlog.

(** ** Package [golog]: name resolution *)

Module golog.

Definition levelNames : list (string * log.Level) :=
  [("debug", log.Debug); ("info", log.Info); ("notice", log.Notice);
   ("warning", log.Warning); ("error", log.Error); ("critical", log.Critical);
   ("alert", log.Alert); ("emergency", log.Emergency); ("none", log.None)].

(** Modelled from the spec: [golog.GetLevelFromName] is defined outside
    [stdlog.go].  The nine case-defined names resolve to their level; any
    other name fails with [InvalidLevelName]. *)
Definition GetLevelFromName (name : string) : option log.Level :=
  (list_to_map levelNames : gmap string log.Level) !! name.

End golog.

(** The state in which [main] starts: [init] has run, nothing else has. *)
Definition started (args : list (string * string)) : State :=
  match start args with
  | Ok (_, s) => s
  | Err _ => boot args
  end.

(** A writer that sends the message as it is. *)
Definition rawWriter : Writer := λ _ msg _, msg.

(** A formatter that renders the message alone. *)
Definition rawFormat : log.Level → string → string := λ _ msg, msg.

(** The schedule that runs goroutines [0 .. n-1] one after the other, each
    for the ten statements of the accessor body. *)
Definition serial (n : nat) : list nat :=
  flat_map (replicate 10) (seq 0 n).



(** The sink a logger object was constructed on. *)
Definition sink (l : Logger) : Stream :=
  match l with
  | golog_New out _ | golog_NewDate out _ | golog_NewWriter out _ _
  | golog_NewDateWriter out _ _ | buflog_New out _ _ => out
  end.

(** What a command line leaves in a string flag that held [value]: the last
    assignment to [name], if any. *)
Fixpoint lastString (name value : string) (args : list (string * string)) : string :=
  match args with
  | [] => value
  | (n, v) :: rest => lastString name (if decide (n = name) then v else value) rest
  end.

(** The same for a boolean flag, whose assignments go through
    [strconv.ParseBool]. *)
Fixpoint lastBool (name : string) (value : bool) (args : list (string * string)) : bool :=
  match args with
  | [] => value
  | (n, v) :: rest =>
      lastBool name (if decide (n = name) then default value (flag.ParseBool v) else value) rest
  end.

Close Scope string_scope.

(** ** Package [buflog]: the buffering state machine *)

Module buflog.

Section buflog.

(** The line formatter: severity and message to the rendered line. *)
Variable format : log.Level → string → string.

(** Modelled from the spec: package [buflog] is not part of [stdlog.go].
    A Buffered logger has a threshold, a flush threshold, the pending
    lines, the flushed flag, and the lines its sink has received. *)
Record Logger : Set := mkLogger {
  threshold : log.Level;
  flushThreshold : log.Level;
  buffer : list string;
  flushed : bool;
  out : list string
}.

Definition New (threshold flushThreshold : log.Level) : Logger :=
  mkLogger threshold flushThreshold [] false [].

(** Modelled from the spec: one logging call of severity [S], the five
    steps of the per-call algorithm of the Buffered logger. *)
Definition output (S : log.Level) (msg : string) (l : Logger) : Logger :=
  if decide (log.rank S < log.rank (threshold l))%nat then l
  else if flushed l then
    mkLogger (threshold l) (flushThreshold l) (buffer l) true (out l ++ [format S msg])%list
  else
    let pending : list string := (buffer l ++ [format S msg])%list in
    if decide ((log.rank (flushThreshold l) ≤ log.rank S)%nat ∧ flushThreshold l ≠ log.None) then
      mkLogger (threshold l) (flushThreshold l) [] true (out l ++ pending)%list
    else
      mkLogger (threshold l) (flushThreshold l) pending false (out l).

(** A log event: severity and message body. *)
Definition Event : Set := log.Level * string.

Definition outputs (es : list Event) (l : Logger) : Logger :=
  foldl (λ l e, output e.1 e.2 l) l es.

(** The lines of the events of [es] that the threshold lets through. *)
Definition recorded (T : log.Level) (es : list Event) : list string :=
  (λ e, format e.1 e.2) <$> filter (λ e, (log.rank T ≤ log.rank e.1)%nat) es.

End buflog.

End buflog.

(** * Properties *)

Ltac unfold_M :=
  unfold mbind, mret, M_bind, M_ret, bind, ret, gets, modify, orPanic, new in *.

(** ** The flag set *)

Lemma set1_kind (m m' : gmap string flag.Flag) (name value : string) :
  flag.set1 m name value = Some m' →
  ∀ p f, m !! p = Some f → ∃ f', m' !! p = Some f' ∧ sameKind (flag.Val f) (flag.Val f').
Proof.
  unfold flag.set1. intros H p f Hp.
  destruct (m !! name) as [g|] eqn:Hg; simplify_eq/=.
  destruct (decide (name = p)) as [->|Hne].
  - rewrite Hp in Hg. injection Hg as <-.
    destruct (flag.Val f) eqn:Hv; simplify_eq/=.
    + eexists; split; [apply lookup_insert_eq|]. done.
    + destruct (flag.ParseBool value); simplify_eq/=.
      eexists; split; [apply lookup_insert_eq|]. done.
  - exists f. split; [|by destruct (flag.Val f)].
    destruct (flag.Val g); simplify_eq/=.
    + by rewrite lookup_insert_ne.
    + destruct (flag.ParseBool value); simplify_eq/=. by rewrite lookup_insert_ne.
Qed.

Lemma sameKind_trans (a b c : flag.Value) : sameKind a b → sameKind b c → sameKind a c.
Proof. by destruct a, b, c. Qed.

Lemma parseAll_kind (args : list (string * string)) (m m' : gmap string flag.Flag) :
  flag.parseAll m args = Some m' →
  ∀ p f, m !! p = Some f → ∃ f', m' !! p = Some f' ∧ sameKind (flag.Val f) (flag.Val f').
Proof.
  revert m. induction args as [|[name value] args IH]; intros m H p f Hp.
  - simplify_eq/=. exists f. split; [done|]. by destruct (flag.Val f).
  - cbn in H. destruct (flag.set1 m name value) as [m1|] eqn:H1; simplify_eq/=.
    destruct (set1_kind _ _ _ _ H1 _ _ Hp) as (f1 & Hf1 & Hk1).
    destruct (IH _ H _ _ Hf1) as (f2 & Hf2 & Hk2).
    exists f2. split; [done|]. by eapply sameKind_trans.
Qed.

Lemma holds_string_kind (s s1 : State) (var : State → option Ptr) (v : string) :
  var s1 = var s →
  (∀ p f, CommandLine s !! p = Some f →
          ∃ f', CommandLine s1 !! p = Some f' ∧ sameKind (flag.Val f) (flag.Val f')) →
  holds s var (flag.stringValue v) → ∃ v', holds s1 var (flag.stringValue v').
Proof.
  intros Hv Hk (p & f & Hp & Hf & Hval).
  destruct (Hk _ _ Hf) as (f' & Hf' & Hs). rewrite Hval in Hs.
  destruct (flag.Val f') as [v'|] eqn:Hv'; [|done].
  exists v', p, f'. by rewrite Hv.
Qed.

Lemma holds_bool_kind (s s1 : State) (var : State → option Ptr) (b : bool) :
  var s1 = var s →
  (∀ p f, CommandLine s !! p = Some f →
          ∃ f', CommandLine s1 !! p = Some f' ∧ sameKind (flag.Val f) (flag.Val f')) →
  holds s var (flag.boolValue b) → ∃ b', holds s1 var (flag.boolValue b').
Proof.
  intros Hv Hk (p & f & Hp & Hf & Hval).
  destruct (Hk _ _ Hf) as (f' & Hf' & Hs). rewrite Hval in Hs.
  destruct (flag.Val f') as [|b'] eqn:Hv'; [done|].
  exists b', p, f'. by rewrite Hv.
Qed.

Lemma loadString_holds (s : State) (var : State → option Ptr) (v : string) :
  holds s var (flag.stringValue v) → loadString var s = Ok (v, s).
Proof. intros (p & f & Hp & Hf & Hv). unfold loadString. by rewrite Hp, Hf; cbn; rewrite Hv. Qed.

Lemma loadBool_holds (s : State) (var : State → option Ptr) (b : bool) :
  holds s var (flag.boolValue b) → loadBool var s = Ok (b, s).
Proof. intros (p & f & Hp & Hf & Hv). unfold loadBool. by rewrite Hp, Hf; cbn; rewrite Hv. Qed.

Lemma loadString_inv (s s' : State) (var : State → option Ptr) (v : string) :
  loadString var s = Ok (v, s') → s' = s ∧ holds s var (flag.stringValue v).
Proof.
  unfold loadString, holds. intros H.
  destruct (var s) as [p|]; [|done].
  destruct (CommandLine s !! p) as [f|] eqn:Hf; [|done]. cbn in H.
  destruct (flag.Val f) eqn:Hv; simplify_eq. eauto 6.
Qed.

Lemma loadBool_inv (s s' : State) (var : State → option Ptr) (b : bool) :
  loadBool var s = Ok (b, s') → s' = s ∧ holds s var (flag.boolValue b).
Proof.
  unfold loadBool, holds. intros H.
  destruct (var s) as [p|]; [|done].
  destruct (CommandLine s !! p) as [f|] eqn:Hf; [|done]. cbn in H.
  destruct (flag.Val f) eqn:Hv; simplify_eq. eauto 6.
Qed.

(** ** [init] and [getStream] *)

(** C4. Run where the three names are still free, [init] defines exactly
    three flags and nothing else: [log] with default [info], [stderr] with
    default [false], [flushlog] with default [none]; the three package
    pointers address their values, which read as these defaults. *)
Theorem init_registers_three_flags (s : State) :
  CommandLine s !! "log"%string = None →
  CommandLine s !! "stderr"%string = None →
  CommandLine s !! "flushlog"%string = None →
  ∃ s', init s = Ok ((), s') ∧
    CommandLine s' =
      <["flushlog"%string :=
          flag.mkFlag "sets the flush trigger level"
            (flag.stringValue "none") (flag.stringValue "none")]>
      (<["stderr"%string :=
          flag.mkFlag "outputs to standard error (stderr)"
            (flag.boolValue false) (flag.boolValue false)]>
      (<["log"%string :=
          flag.mkFlag "sets the logging threshold"
            (flag.stringValue "info") (flag.stringValue "info")]> (CommandLine s))) ∧
    dom (CommandLine s') =
      dom (CommandLine s) ∪ {["log"%string; "stderr"%string; "flushlog"%string]} ∧
    size (CommandLine s') = 3 + size (CommandLine s) ∧
    loadString thresholdName s' = Ok ("info"%string, s') ∧
    loadBool logToStderr s' = Ok (false, s') ∧
    loadString flushThresholdName s' = Ok ("none"%string, s') ∧
    Parsed s' = Parsed s ∧ logger s' = logger s ∧ heap s' = heap s.
Proof.
  intros H1 H2 H3.
  unfold init, flag_String, flag_Bool, flag_define. unfold_M. cbn.
  rewrite H1. cbn. rewrite lookup_insert_ne, H2 by done. cbn.
  rewrite !lookup_insert_ne, H3 by done. cbn.
  eexists; split; [reflexivity|]. cbn. split_and!; try done.
  - rewrite !dom_insert_L. apply set_eq. intros x. rewrite !elem_of_union, !elem_of_singleton. tauto.
  - rewrite !map_size_insert_None; [done|by simplify_map_eq..].
  - unfold loadString; cbn. by simplify_map_eq.
  - unfold loadBool; cbn. by simplify_map_eq.
  - unfold loadString; cbn. by simplify_map_eq.
Qed.

(** C5. [getStream] returns the standard error stream for [true] and the
    standard output stream for [false]; it returns no other sink. *)
Theorem getStream_selects :
  getStream true = Stderr ∧ getStream false = Stdout ∧
  (∀ b, getStream b = Stderr ∨ getStream b = Stdout) ∧
  (∀ b, getStream b = Stderr ↔ b = true) ∧
  (∀ b path, getStream b ≠ File path).
Proof.
  split_and!; try done; intros []; cbn; try done; auto.
Qed.

Lemma init_wired (s0 s : State) : init s0 = Ok ((), s) → wired s.
Proof.
  unfold init, flag_String, flag_Bool, flag_define. unfold_M. cbn.
  intros H. right.
  destruct (CommandLine s0 !! "log"%string) eqn:H1; simplify_eq/=.
  rewrite lookup_insert_ne in H by done.
  destruct (CommandLine s0 !! "stderr"%string) eqn:H2; simplify_eq/=.
  rewrite !lookup_insert_ne in H by done.
  destruct (CommandLine s0 !! "flushlog"%string) eqn:H3; simplify_eq/=.
  unfold holds; cbn. split_and!; do 3 eexists; (split; [done|]); by simplify_map_eq.
Qed.

Section stdlog_facts.

Variable GetLevelFromName : string → option log.Level.

#[local] Abbreviation resolveFlags := (resolveFlags GetLevelFromName).
#[local] Abbreviation call := (call GetLevelFromName).
#[local] Abbreviation calls := (calls GetLevelFromName).

(** With the handle set, an accessor returns it and leaves every variable,
    flag and object as it was. *)
Lemma call_stored (c : Call) (s : State) (h : Handle) :
  logger s = Some h → call c s = Ok (Some h, s).
Proof.
  intros Hl. destruct c; cbn;
    unfold GetFromFlags, GetFromFlagsDate, GetFromFlagsWriter, GetFromFlagsDateWriter;
    unfold_M; rewrite Hl; reflexivity.
Qed.

(** With the handle nil, an accessor resolves the flags, constructs one
    logger, stores its handle and returns it. *)
Lemma call_fresh (c : Call) (s : State) :
  logger s = None →
  call c s =
    match resolveFlags s with
    | Ok ((threshold, out, flushThreshold), s1) =>
        let h := length (heap s1) in
        Ok (Some h,
            set_logger (Some h)
              (set_heap (heap s1 ++ [constructed c threshold out flushThreshold]) s1))
    | Err e => Err e
    end.
Proof.
  intros Hl. destruct c; cbn;
    unfold GetFromFlags, GetFromFlagsDate, GetFromFlagsWriter, GetFromFlagsDateWriter,
      resolveFlags, ensureParsed, constructed;
    unfold_M; rewrite Hl; cbn;
    repeat (case_match; simplify_eq/=; try reflexivity).
Qed.

(** Resolving the flags constructs nothing and leaves the handle alone. *)
Lemma resolveFlags_frame (s s1 : State) cfg :
  resolveFlags s = Ok (cfg, s1) →
  heap s1 = heap s ∧ logger s1 = logger s ∧ osArgs s1 = osArgs s ∧ Parsed s1 = true ∧
  thresholdName s1 = None ∧ logToStderr s1 = None ∧ flushThresholdName s1 = None.
Proof.
  unfold resolveFlags, ensureParsed, loadString, loadBool, flag_Parse. unfold_M.
  intros H. destruct (Parsed s) eqn:HP;
    repeat (case_match; simplify_eq/=; try done).
Qed.

(** The outcome of the first, constructing call of accessor [c]. *)
Lemma call_constructs (c : Call) (s s1 : State) threshold out flushThreshold :
  logger s = None →
  resolveFlags s = Ok ((threshold, out, flushThreshold), s1) →
  ∃ s', call c s = Ok (Some (length (heap s)), s') ∧
        heap s' = heap s ++ [constructed c threshold out flushThreshold] ∧
        heap s' !! length (heap s) = Some (constructed c threshold out flushThreshold) ∧
        logger s' = Some (length (heap s)).
Proof.
  intros Hl Hr. rewrite call_fresh, Hr by done.
  destruct (resolveFlags_frame _ _ _ Hr) as (Hh & _). rewrite Hh.
  eexists; split; [reflexivity|]. cbn. split_and!; [done| |done].
  by apply list_lookup_middle.
Qed.

(** C1. On the constructing call of [GetFromFlags], with the flags resolved
    to threshold, sink and flush threshold: exactly one logger is built; it
    is the Direct logger [golog.New(out, threshold)] when the flush
    threshold is [log.None] and the Buffered logger
    [buflog.New(out, threshold, flushThreshold)] otherwise.  In particular no
    Buffered logger is built when the flush threshold is [log.None]. *)
Theorem GetFromFlags_selects_variant (s s1 : State) threshold out flushThreshold :
  logger s = None →
  resolveFlags s = Ok ((threshold, out, flushThreshold), s1) →
  ∃ h s' obj,
    GetFromFlags GetLevelFromName s = Ok (Some h, s') ∧
    heap s' = heap s ++ [obj] ∧ heap s' !! h = Some obj ∧
    (flushThreshold = log.None →
       obj = golog_New out threshold ∧ isDirect obj = true ∧ isBuffered obj = false) ∧
    (flushThreshold ≠ log.None →
       obj = buflog_New out threshold flushThreshold ∧ isBuffered obj = true).
Proof.
  intros Hl Hr.
  destruct (call_constructs CallGetFromFlags _ _ _ _ _ Hl Hr) as (s' & Hc & Hh & Hlk & _).
  exists (length (heap s)), s', (constructed CallGetFromFlags threshold out flushThreshold).
  split_and!; try done; unfold constructed; intros Hf; case_decide; done.
Qed.

(** A call that returns, returns a non-nil handle and has it stored. *)
Lemma call_returns (c : Call) (s s1 : State) (r : option Handle) :
  call c s = Ok (r, s1) → ∃ h, r = Some h ∧ logger s1 = Some h.
Proof.
  intros Hc. destruct (logger s) as [h|] eqn:Hl.
  - rewrite (call_stored _ _ _ Hl) in Hc. simplify_eq. eauto.
  - rewrite call_fresh in Hc by done.
    destruct (resolveFlags s) as [[[[t o] f] s0]|]; simplify_eq/=. eauto.
Qed.

Lemma calls_stored (cs : list Call) (s : State) (h : Handle) :
  logger s = Some h → calls cs s = Ok (replicate (length cs) (Some h), s).
Proof.
  intros Hl. induction cs as [|c' cs IH]; [done|].
  cbn. unfold_M. rewrite (call_stored c' _ _ Hl).
  fold (calls cs). by rewrite IH.
Qed.

(** C2. Once a call of any of the four accessors has returned, it returned
    a non-nil handle [h] that is stored in [logger]; from then on any
    accessor, whatever its argument and whatever the flags and flag
    pointers hold, returns [h] and changes nothing: no flag is parsed and
    no logger is constructed, over any sequence of later calls. *)
Theorem GetFromFlags_once (c : Call) (s s1 : State) (r : option Handle) :
  call c s = Ok (r, s1) →
  ∃ h, r = Some h ∧ logger s1 = Some h ∧
       (∀ c' s2, logger s2 = Some h → call c' s2 = Ok (Some h, s2)) ∧
       (∀ cs, calls cs s1 = Ok (replicate (length cs) (Some h), s1)).
Proof.
  intros Hc. destruct (call_returns _ _ _ _ Hc) as (h & -> & Hl).
  exists h. split_and!; try done.
  - intros c' s2. apply call_stored.
  - intros cs. by apply calls_stored.
Qed.

(** C6, as the code has it.  On the constructing call of
    [GetFromFlagsWriter] or [GetFromFlagsDateWriter] with writer [w]: when
    the flush threshold resolves to [log.None] the logger is built by
    [golog.NewWriter], respectively [golog.NewDateWriter], with [w] as its
    line writer; when it resolves to another level the logger is
    [buflog.New(out, threshold, flushThreshold)], which is not handed [w]. *)
Theorem GetFromFlagsWriter_line_writer (w : Writer) (s s1 : State)
    threshold out flushThreshold :
  logger s = None →
  resolveFlags s = Ok ((threshold, out, flushThreshold), s1) →
  ∃ h s' s'' obj objD,
    GetFromFlagsWriter GetLevelFromName w s = Ok (Some h, s') ∧
    heap s' !! h = Some obj ∧
    GetFromFlagsDateWriter GetLevelFromName w s = Ok (Some h, s'') ∧
    heap s'' !! h = Some objD ∧
    (flushThreshold = log.None →
       obj = golog_NewWriter out threshold w ∧ lineWriter obj = Some w ∧
       objD = golog_NewDateWriter out threshold w ∧ lineWriter objD = Some w) ∧
    (flushThreshold ≠ log.None →
       obj = buflog_New out threshold flushThreshold ∧ lineWriter obj = None ∧
       objD = obj).
Proof.
  intros Hl Hr.
  destruct (call_constructs (CallGetFromFlagsWriter w) _ _ _ _ _ Hl Hr)
    as (s' & Hc & _ & Hlk & _).
  destruct (call_constructs (CallGetFromFlagsDateWriter w) _ _ _ _ _ Hl Hr)
    as (s'' & Hc' & _ & Hlk' & _).
  exists (length (heap s)), s', s''. do 2 eexists.
  split_and!; [exact Hc|exact Hlk|exact Hc'|exact Hlk'| |];
    unfold constructed; intros Hf; case_decide; done.
Qed.

(** C10. When the flush threshold resolves to a level other than
    [log.None], the constructing call of each of the four accessors has the
    same outcome: the same handle, the same final state, and behind the
    handle the logger [buflog.New(out, threshold, flushThreshold)]. *)
Theorem buffered_construction_identical (s s1 : State) threshold out flushThreshold :
  logger s = None →
  resolveFlags s = Ok ((threshold, out, flushThreshold), s1) →
  flushThreshold ≠ log.None →
  ∃ h s', heap s' !! h = Some (buflog_New out threshold flushThreshold) ∧
          GetFromFlags GetLevelFromName s = Ok (Some h, s') ∧
          GetFromFlagsDate GetLevelFromName s = Ok (Some h, s') ∧
          (∀ w, GetFromFlagsWriter GetLevelFromName w s = Ok (Some h, s')) ∧
          (∀ w, GetFromFlagsDateWriter GetLevelFromName w s = Ok (Some h, s')).
Proof.
  intros Hl Hr Hf.
  assert (∀ c, call c s =
    Ok (Some (length (heap s1)),
        set_logger (Some (length (heap s1)))
          (set_heap (heap s1 ++ [buflog_New out threshold flushThreshold]) s1))) as Hall.
  { intros c. rewrite call_fresh, Hr by done. cbn. unfold constructed.
    case_decide; done. }
  exists (length (heap s1)),
    (set_logger (Some (length (heap s1)))
       (set_heap (heap s1 ++ [buflog_New out threshold flushThreshold]) s1)).
  split_and!.
  - cbn. by apply list_lookup_middle.
  - apply (Hall CallGetFromFlags).
  - apply (Hall CallGetFromFlagsDate).
  - intros w. apply (Hall (CallGetFromFlagsWriter w)).
  - intros w. apply (Hall (CallGetFromFlagsDateWriter w)).
Qed.

(** ** Flag pointers *)

Lemma ensureParsed_frame (s s1 : State) :
  ensureParsed s = Ok ((), s1) →
  logger s1 = logger s ∧ thresholdName s1 = thresholdName s ∧
  logToStderr s1 = logToStderr s ∧ flushThresholdName s1 = flushThresholdName s ∧
  heap s1 = heap s ∧
  (∀ p f, CommandLine s !! p = Some f →
          ∃ f', CommandLine s1 !! p = Some f' ∧ sameKind (flag.Val f) (flag.Val f')).
Proof.
  unfold ensureParsed, flag_Parse. unfold_M. intros H.
  destruct (Parsed s).
  - simplify_eq. split_and!; try done. intros p f Hf. exists f.
    split; [done|]. by destruct (flag.Val f).
  - destruct (flag.parseAll (CommandLine s) (osArgs s)) as [m|] eqn:Hm; simplify_eq/=.
    split_and!; try done. by eapply parseAll_kind.
Qed.

Lemma ensureParsed_fails (s : State) (e : Panic) :
  ensureParsed s = Err e → e = FlagExit.
Proof.
  unfold ensureParsed, flag_Parse. unfold_M. intros H.
  destruct (Parsed s); [done|].
  destruct (flag.parseAll (CommandLine s) (osArgs s)); by simplify_eq/=.
Qed.

(** Resolution over a parsed state whose three cells are known. *)
Lemma resolveFlags_parsed (s s1 : State) (nT nF : string) (b : bool) :
  ensureParsed s = Ok ((), s1) →
  holds s1 thresholdName (flag.stringValue nT) →
  holds s1 logToStderr (flag.boolValue b) →
  holds s1 flushThresholdName (flag.stringValue nF) →
  resolveFlags s =
    match GetLevelFromName nT, GetLevelFromName nF with
    | Some threshold, Some flushThreshold =>
        Ok ((threshold, getStream b, flushThreshold),
            set_flushThresholdName None (set_logToStderr None (set_thresholdName None s1)))
    | _, _ => Err InvalidLevelName
    end.
Proof.
  intros HE HT HB HF. unfold resolveFlags. unfold_M. rewrite HE.
  rewrite (loadString_holds _ _ _ HT).
  destruct (GetLevelFromName nT) as [t|]; [|done].
  rewrite (loadBool_holds _ _ b) by (destruct HB as (p & f & ? & ? & ?); by exists p, f).
  rewrite (loadString_holds _ _ nF) by (destruct HF as (p & f & ? & ? & ?); by exists p, f).
  by destruct (GetLevelFromName nF).
Qed.

Lemma resolveFlags_safe (s : State) :
  logger s = None → wired s →
  resolveFlags s ≠ Err NilDereference ∧ resolveFlags s ≠ Err InvalidPointer.
Proof.
  intros Hl [[h Hh]|(HT & HB & HF)]; [congruence|].
  destruct (ensureParsed s) as [[[] s1]|e] eqn:HE.
  - destruct (ensureParsed_frame _ _ HE) as (_ & H1 & H2 & H3 & _ & Hk).
    destruct HT as [v HT], HB as [b HB], HF as [v' HF].
    destruct (holds_string_kind s s1 _ _ H1 Hk HT) as [nT HT1].
    destruct (holds_bool_kind s s1 _ _ H2 Hk HB) as [b1 HB1].
    destruct (holds_string_kind s s1 _ _ H3 Hk HF) as [nF HF1].
    rewrite (resolveFlags_parsed _ _ _ _ _ HE HT1 HB1 HF1).
    by destruct (GetLevelFromName nT), (GetLevelFromName nF).
  - apply ensureParsed_fails in HE as Hfe. subst e.
    unfold resolveFlags. unfold_M. by rewrite HE.
Qed.

Lemma call_safe (c : Call) (s : State) :
  wired s →
  call c s ≠ Err NilDereference ∧ call c s ≠ Err InvalidPointer ∧
  (∀ r s', call c s = Ok (r, s') → wired s').
Proof.
  intros Hw. destruct (logger s) as [h|] eqn:Hl.
  - rewrite (call_stored _ _ _ Hl). split_and!; try done.
    intros r s' ?; by simplify_eq.
  - rewrite call_fresh by done.
    destruct (resolveFlags_safe s Hl Hw) as [Hn Hp].
    destruct (resolveFlags s) as [[[[t o] f] s1]|e]; cbn.
    + split_and!; try done. intros r s' ?; simplify_eq. by left; eexists.
    + split_and!; congruence.
Qed.

Lemma calls_safe (cs : list Call) (s : State) :
  wired s → calls cs s ≠ Err NilDereference ∧ calls cs s ≠ Err InvalidPointer.
Proof.
  revert s. induction cs as [|c cs IH]; intros s Hw; [done|].
  cbn. unfold_M. fold (calls cs).
  destruct (call_safe c s Hw) as (Hn & Hp & Hk).
  destruct (call c s) as [[r s']|e]; [|split; congruence].
  destruct (IH s' (Hk _ _ eq_refl)) as [Hn' Hp'].
  destruct (calls cs s') as [[rs s'']|e]; [done|split; congruence].
Qed.

(** C9, as the code has it.  After [init], in a sequence of accessor calls
    made one after the other no call panics on a nil flag pointer (nor
    reads a cell that does not exist) unless an earlier call of the
    sequence has failed: the sequence runs to its end or stops at a first
    failing call, and that call does not fail on a nil pointer.  The
    constructing call does leave the three pointers nil, and every call
    after it returns the stored handle at its guard. *)
Theorem calls_never_dereference_nil (s0 s : State) (cs : list Call) :
  init s0 = Ok ((), s) →
  calls cs s ≠ Err NilDereference ∧ calls cs s ≠ Err InvalidPointer ∧
  (∀ c r s', logger s = None → call c s = Ok (r, s') →
     thresholdName s' = None ∧ logToStderr s' = None ∧ flushThresholdName s' = None ∧
     ∀ cs', calls cs' s' = Ok (replicate (length cs') r, s')).
Proof.
  intros Hi. apply init_wired in Hi as Hw.
  destruct (calls_safe cs s Hw) as [Hn Hp]. split_and!; try done.
  intros c r s' Hl Hc.
  destruct (call_returns _ _ _ _ Hc) as (h & -> & Hl').
  rewrite call_fresh in Hc by done.
  destruct (resolveFlags s) as [[[[t o] f] s1]|e] eqn:Hr; simplify_eq/=.
  destruct (resolveFlags_frame _ _ _ Hr) as (_ & _ & _ & _ & H1 & H2 & H3).
  split_and!; try done. intros cs'. by apply calls_stored.
Qed.

(** ** Goroutines *)


(** ** Goroutines *)

Lemma run_panicked (n : nat) (c : Call) (e : Panic) (s : State) :
  run GetLevelFromName n c (Panicked e) s = (Panicked e, s).
Proof. induction n; [done|]. by cbn. Qed.

Ltac next := cbn [run step]; unfold exec; unfold_M; cbn [fst snd].
Ltac stuck := cbn [fst snd]; rewrite ?run_panicked; done.

(** A goroutine that runs alone does what the sequential accessor does. *)
Lemma solo_call (c : Call) (s : State) :
  match call c s with
  | Ok (r, s') => solo GetLevelFromName c s = (Returned r, s')
  | Err e => (solo GetLevelFromName c s).1 = Panicked e
  end.
Proof.
  destruct (logger s) as [h|] eqn:Hl.
  - rewrite (call_stored _ _ _ Hl).
    unfold solo. cbn. unfold exec. unfold_M. by rewrite Hl.
  - rewrite call_fresh by done.
    unfold solo, resolveFlags. next. rewrite Hl. next.
    destruct (ensureParsed s) as [[[] s1]|e]; [|stuck].
    next.
    destruct (loadString thresholdName s1) as [[nT s2]|e]; [|stuck].
    destruct (GetLevelFromName nT) as [t|]; [|stuck].
    next. next.
    destruct (loadBool logToStderr _) as [[b s3]|e]; [|stuck].
    next. next.
    destruct (loadString flushThresholdName _) as [[nF s4]|e]; [|stuck].
    destruct (GetLevelFromName nF) as [f|]; [|stuck].
    next. next. next. reflexivity.
Qed.

End stdlog_facts.

(** ** Name resolution on the construction path *)

Lemma GetLevelFromName_unrecognised (name : string) :
  name ∉ golog.levelNames.*1 → golog.GetLevelFromName name = None.
Proof. intros H. unfold golog.GetLevelFromName. by apply not_elem_of_list_to_map_1. Qed.

(** C7. With the name resolution of [golog], a first call of any accessor
    under a [log] or [flushlog] value that is none of the nine level names
    does not return: it fails with [InvalidLevelName], and no logger is
    constructed from a substitute level. *)
Theorem invalid_level_name_surfaces (c : Call) (s s1 : State)
    (nT nF : string) (b : bool) :
  logger s = None →
  ensureParsed s = Ok ((), s1) →
  loadString thresholdName s1 = Ok (nT, s1) →
  loadBool logToStderr s1 = Ok (b, s1) →
  loadString flushThresholdName s1 = Ok (nF, s1) →
  nT ∉ golog.levelNames.*1 ∨ nF ∉ golog.levelNames.*1 →
  call golog.GetLevelFromName c s = Err InvalidLevelName.
Proof.
  intros Hl HE HT HB HF Hbad.
  apply loadString_inv in HT as [_ HT]. apply loadBool_inv in HB as [_ HB].
  apply loadString_inv in HF as [_ HF].
  rewrite call_fresh by done.
  rewrite (resolveFlags_parsed _ _ _ _ _ _ HE HT HB HF).
  destruct Hbad as [H|H]; rewrite (GetLevelFromName_unrecognised _ H);
    by destruct (golog.GetLevelFromName nT).
Qed.

(** ** Two goroutines making the first call *)

(** C8. The handle is a plain package variable tested and assigned without
    synchronisation.  Two goroutines that both call [GetFromFlags] first:
    when each reads its flags before the other clears the pointers, two
    loggers are constructed and the callers are handed different ones;
    when one completes between the other's guard and its first flag read,
    the other panics on the nil [thresholdName]. *)
Theorem concurrent_first_calls_construct_twice :
  let G := golog.GetLevelFromName in
  let p0 := spawn [CallGetFromFlags; CallGetFromFlags] (started []) in
  let p := schedule G [0;1; 0;1; 0;1; 0;1; 0;1; 0;1; 0;1; 0;1; 0;0; 1;1] p0 in
  let q := schedule G [0;1; 0;0;0;0;0;0;0;0;0; 1;1] p0 in
  start [] = Ok ((), started []) ∧
  p.1 = [(CallGetFromFlags, Returned (Some 0)); (CallGetFromFlags, Returned (Some 1))] ∧
  heap p.2 = [golog_New Stdout log.Info; golog_New Stdout log.Info] ∧
  q.1 = [(CallGetFromFlags, Returned (Some 0)); (CallGetFromFlags, Panicked NilDereference)] ∧
  heap q.2 = [golog_New Stdout log.Info].
Proof. vm_compute. done. Qed.

(** ** The Buffered logger *)

Section buflog_facts.

Variable format : log.Level → string → string.

#[local] Abbreviation output := (buflog.output format).
#[local] Abbreviation outputs := (buflog.outputs format).
#[local] Abbreviation recorded := (buflog.recorded format).

Lemma recorded_cons_in (T : log.Level) (e : buflog.Event) (es : list buflog.Event) :
  log.rank T ≤ log.rank e.1 → recorded T (e :: es) = format e.1 e.2 :: recorded T es.
Proof. intros H. unfold buflog.recorded. by rewrite filter_cons_True. Qed.

Lemma recorded_cons_out (T : log.Level) (e : buflog.Event) (es : list buflog.Event) :
  log.rank e.1 < log.rank T → recorded T (e :: es) = recorded T es.
Proof. intros H. unfold buflog.recorded. rewrite filter_cons_False; [done|lia]. Qed.

Lemma outputs_cons (e : buflog.Event) (es : list buflog.Event) (l : buflog.Logger) :
  outputs (e :: es) l = outputs es (output e.1 e.2 l).
Proof. reflexivity. Qed.

Lemma outputs_app (es1 es2 : list buflog.Event) (l : buflog.Logger) :
  outputs (es1 ++ es2) l = outputs es2 (outputs es1 l).
Proof. apply foldl_app. Qed.

(** Step 1: below the threshold the call is a no-op, in either state. *)
Lemma output_below (e : buflog.Event) (l : buflog.Logger) :
  log.rank e.1 < log.rank (buflog.threshold l) → output e.1 e.2 l = l.
Proof. intros H. unfold buflog.output. by case_decide. Qed.

(** Steps 3 and 5: while collecting, a recorded event below the flush
    threshold is appended to the buffer. *)
Lemma output_pending (e : buflog.Event) (T F : log.Level) (buf written : list string) :
  log.rank T ≤ log.rank e.1 → log.rank e.1 < log.rank F →
  output e.1 e.2 (buflog.mkLogger T F buf false written) =
  buflog.mkLogger T F (buf ++ [format e.1 e.2]) false written.
Proof.
  intros HT HF. unfold buflog.output; cbn.
  case_decide; [lia|]. case_decide as Hd; [lia|done].
Qed.

(** Steps 3 and 4: the event that reaches the flush threshold drains the
    buffer, its own line last. *)
Lemma output_trigger (e : buflog.Event) (T F : log.Level) (buf written : list string) :
  F ≠ log.None → log.rank F ≤ log.rank e.1 → log.rank T ≤ log.rank e.1 →
  output e.1 e.2 (buflog.mkLogger T F buf false written) =
  buflog.mkLogger T F [] true (written ++ buf ++ [format e.1 e.2]).
Proof.
  intros HF He HT. unfold buflog.output; cbn.
  case_decide; [lia|]. case_decide as Hd; [done|]. destruct Hd; done.
Qed.

(** Step 2: once flushed, a recorded event goes straight to the sink. *)
Lemma output_direct (e : buflog.Event) (T F : log.Level) (buf written : list string) :
  log.rank T ≤ log.rank e.1 →
  output e.1 e.2 (buflog.mkLogger T F buf true written) =
  buflog.mkLogger T F buf true (written ++ [format e.1 e.2]).
Proof. intros HT. unfold buflog.output; cbn. case_decide; [lia|done]. Qed.

(** While collecting, events below the flush threshold only extend the
    buffer; nothing reaches the sink. *)
Lemma outputs_collecting (es : list buflog.Event) (T F : log.Level)
    (buf written : list string) :
  Forall (λ e, log.rank e.1 < log.rank F) es →
  outputs es (buflog.mkLogger T F buf false written) =
  buflog.mkLogger T F (buf ++ recorded T es) false written.
Proof.
  revert buf. induction es as [|e es IH]; intros buf Hes.
  - cbn. by rewrite app_nil_r.
  - apply Forall_cons in Hes as [He Hes]. rewrite outputs_cons.
    destruct (decide (log.rank e.1 < log.rank T)) as [Hlt|Hge].
    + rewrite output_below by done. by rewrite (IH buf Hes), recorded_cons_out.
    + rewrite output_pending by lia.
      rewrite (IH _ Hes), recorded_cons_in by lia. by rewrite <- app_assoc.
Qed.

Lemma outputs_flushed (es : list buflog.Event) (T F : log.Level)
    (buf written : list string) :
  outputs es (buflog.mkLogger T F buf true written) =
  buflog.mkLogger T F buf true (written ++ recorded T es).
Proof.
  revert written. induction es as [|e es IH]; intros written.
  - cbn. by rewrite app_nil_r.
  - rewrite outputs_cons.
    destruct (decide (log.rank e.1 < log.rank T)) as [Hlt|Hge].
    + rewrite output_below by done. by rewrite IH, recorded_cons_out.
    + rewrite output_direct by lia.
      rewrite IH, recorded_cons_in by lia. by rewrite <- app_assoc.
Qed.

(** C3. A Buffered logger with threshold [T] and flush threshold [F], [F]
    not [log.None], is fed events [pre], all below [F], then an event [e] at
    or above [F] that it records, then any events [post].  After [pre]
    nothing has been written and the recorded events of [pre] are pending
    in order.  After [e] the sink holds exactly those lines in order
    followed by the line of [e], once each, and the buffer is empty; the
    later events add their own lines and nothing is written again. *)
Theorem flush_in_order (T F : log.Level) (pre post : list buflog.Event)
    (e : buflog.Event) :
  F ≠ log.None →
  Forall (λ ev, log.rank ev.1 < log.rank F) pre →
  log.rank F ≤ log.rank e.1 →
  log.rank T ≤ log.rank e.1 →
  let l0 := buflog.New T F in
  buflog.out (outputs pre l0) = [] ∧
  buflog.buffer (outputs pre l0) = recorded T pre ∧
  buflog.flushed (outputs pre l0) = false ∧
  buflog.out (outputs (pre ++ [e]) l0) = recorded T pre ++ [format e.1 e.2] ∧
  buflog.buffer (outputs (pre ++ [e]) l0) = [] ∧
  buflog.flushed (outputs (pre ++ [e]) l0) = true ∧
  buflog.out (outputs (pre ++ e :: post) l0) =
    recorded T pre ++ [format e.1 e.2] ++ recorded T post ∧
  buflog.buffer (outputs (pre ++ e :: post) l0) = [].
Proof.
  intros HF Hpre He HT l0. unfold l0, buflog.New.
  assert (∀ es, outputs (pre ++ e :: es) (buflog.mkLogger T F [] false []) =
                buflog.mkLogger T F [] true
                  (recorded T pre ++ [format e.1 e.2] ++ recorded T es)) as Hrun.
  { intros es. rewrite outputs_app, outputs_cons.
    rewrite (outputs_collecting pre T F [] [] Hpre). cbn [app].
    rewrite (output_trigger e T F _ _ HF He HT). cbn [app].
    rewrite outputs_flushed. by rewrite <- app_assoc. }
  rewrite (outputs_collecting pre T F [] [] Hpre), (Hrun []), (Hrun post). cbn.
  split_and!; try done.
Qed.

End buflog_facts.

(** * The properties on concrete runs *)

Open Scope string_scope.

Lemma GetFromFlags_selects_variant_witness :
  ∃ s1, logger (started [("flushlog", "error")]) = None ∧
        resolveFlags golog.GetLevelFromName (started [("flushlog", "error")])
          = Ok ((log.Info, Stdout, log.Error), s1) ∧
        ∃ h s' obj,
          GetFromFlags golog.GetLevelFromName (started [("flushlog", "error")])
            = Ok (Some h, s') ∧
          heap s' = (heap (started [("flushlog", "error")]) ++ [obj])%list ∧
          heap s' !! h = Some obj ∧
          (log.Error = log.None →
             obj = golog_New Stdout log.Info ∧ isDirect obj = true ∧ isBuffered obj = false) ∧
          (log.Error ≠ log.None →
             obj = buflog_New Stdout log.Info log.Error ∧ isBuffered obj = true).
Proof.
  eexists. split; [reflexivity|]. split; [reflexivity|].
  eapply (GetFromFlags_selects_variant golog.GetLevelFromName
            (started [("flushlog", "error")])); reflexivity.
Defined.

Lemma GetFromFlags_once_witness :
  call golog.GetLevelFromName CallGetFromFlagsDate (started [])
    = Ok (Some 0, after (call golog.GetLevelFromName CallGetFromFlagsDate) (started [])) ∧
  ∃ h, Some 0 = Some h ∧
    logger (after (call golog.GetLevelFromName CallGetFromFlagsDate) (started [])) = Some h ∧
    (∀ c' s2, logger s2 = Some h → call golog.GetLevelFromName c' s2 = Ok (Some h, s2)) ∧
    (∀ cs, calls golog.GetLevelFromName cs
             (after (call golog.GetLevelFromName CallGetFromFlagsDate) (started []))
           = Ok (replicate (length cs) (Some h),
                 after (call golog.GetLevelFromName CallGetFromFlagsDate) (started []))).
Proof.
  split; [vm_compute; reflexivity|].
  apply (GetFromFlags_once golog.GetLevelFromName CallGetFromFlagsDate (started [])).
  vm_compute; reflexivity.
Defined.

Lemma flush_in_order_witness :
  buflog.out
    (buflog.outputs rawFormat
       ([(log.Info, "a"); (log.Debug, "b"); (log.Warning, "c")] ++
        (log.Error, "d") :: [(log.Info, "e")])
       (buflog.New log.Debug log.Error))
  = ["a"; "b"; "c"; "d"; "e"].
Proof.
  refine (proj1 (proj2 (proj2 (proj2 (proj2 (proj2 (proj2
    (flush_in_order rawFormat log.Debug log.Error
       [(log.Info, "a"); (log.Debug, "b"); (log.Warning, "c")] [(log.Info, "e")]
       (log.Error, "d") _ _ _ _)))))))).
  - discriminate.
  - repeat constructor; cbn; lia.
  - cbn; lia.
  - cbn; lia.
Defined.

Lemma init_registers_three_flags_witness :
  ∃ s', init (boot []) = Ok ((), s') ∧
    CommandLine s' =
      <["flushlog" :=
          flag.mkFlag "sets the flush trigger level"
            (flag.stringValue "none") (flag.stringValue "none")]>
      (<["stderr" :=
          flag.mkFlag "outputs to standard error (stderr)"
            (flag.boolValue false) (flag.boolValue false)]>
      (<["log" :=
          flag.mkFlag "sets the logging threshold"
            (flag.stringValue "info") (flag.stringValue "info")]> (CommandLine (boot [])))) ∧
    dom (CommandLine s') = dom (CommandLine (boot [])) ∪ {["log"; "stderr"; "flushlog"]} ∧
    size (CommandLine s') = 3 + size (CommandLine (boot [])) ∧
    loadString thresholdName s' = Ok ("info", s') ∧
    loadBool logToStderr s' = Ok (false, s') ∧
    loadString flushThresholdName s' = Ok ("none", s') ∧
    Parsed s' = Parsed (boot []) ∧ logger s' = logger (boot []) ∧ heap s' = heap (boot []).
Proof.
  apply (init_registers_three_flags (boot [])); reflexivity.
Defined.

(** C6 as stated fails.  Under [-flushlog=error] the constructing call of
    [GetFromFlagsWriter] (and of [GetFromFlagsDateWriter]) builds
    [buflog.New(os.Stdout, Info, Error)], which holds no writer. *)
Lemma GetFromFlagsWriter_buffered_drops_writer :
  (logger (started [("flushlog", "error")]) = None ∧
   GetFromFlagsWriter golog.GetLevelFromName rawWriter (started [("flushlog", "error")])
     = Ok (Some 0, after (GetFromFlagsWriter golog.GetLevelFromName rawWriter)
                     (started [("flushlog", "error")])) ∧
   heap (after (GetFromFlagsWriter golog.GetLevelFromName rawWriter)
           (started [("flushlog", "error")])) !! 0
     = Some (buflog_New Stdout log.Info log.Error) ∧
   GetFromFlagsDateWriter golog.GetLevelFromName rawWriter (started [("flushlog", "error")])
     = Ok (Some 0, after (GetFromFlagsDateWriter golog.GetLevelFromName rawWriter)
                     (started [("flushlog", "error")])) ∧
   heap (after (GetFromFlagsDateWriter golog.GetLevelFromName rawWriter)
           (started [("flushlog", "error")])) !! 0
     = Some (buflog_New Stdout log.Info log.Error) ∧
   lineWriter (buflog_New Stdout log.Info log.Error) = None) ∧
  ¬ (∀ (w : Writer) (s s' : State) (h : Handle) (obj : Logger),
       logger s = None →
       GetFromFlagsWriter golog.GetLevelFromName w s = Ok (Some h, s') →
       heap s' !! h = Some obj →
       lineWriter obj = Some w).
Proof.
  split.
  - split_and!; vm_compute; reflexivity.
  - intros H.
    assert (lineWriter (buflog_New Stdout log.Info log.Error) = Some rawWriter) as Hw.
    { apply (H rawWriter (started [("flushlog", "error")])
               (after (GetFromFlagsWriter golog.GetLevelFromName rawWriter)
                  (started [("flushlog", "error")])) 0);
        vm_compute; reflexivity. }
    discriminate Hw.
Qed.

Lemma GetFromFlagsWriter_line_writer_witness :
  ∃ s1, logger (started [("stderr", "true")]) = None ∧
        resolveFlags golog.GetLevelFromName (started [("stderr", "true")])
          = Ok ((log.Info, Stderr, log.None), s1) ∧
        ∃ h s' s'' obj objD,
          GetFromFlagsWriter golog.GetLevelFromName rawWriter (started [("stderr", "true")])
            = Ok (Some h, s') ∧
          heap s' !! h = Some obj ∧
          GetFromFlagsDateWriter golog.GetLevelFromName rawWriter (started [("stderr", "true")])
            = Ok (Some h, s'') ∧
          heap s'' !! h = Some objD ∧
          (log.None = log.None →
             obj = golog_NewWriter Stderr log.Info rawWriter ∧ lineWriter obj = Some rawWriter ∧
             objD = golog_NewDateWriter Stderr log.Info rawWriter ∧
             lineWriter objD = Some rawWriter) ∧
          (log.None ≠ log.None →
             obj = buflog_New Stderr log.Info log.None ∧ lineWriter obj = None ∧
             objD = obj).
Proof.
  eexists. split; [reflexivity|]. split; [reflexivity|].
  eapply (GetFromFlagsWriter_line_writer golog.GetLevelFromName rawWriter
            (started [("stderr", "true")])); reflexivity.
Defined.

Lemma invalid_level_name_surfaces_witness :
  call golog.GetLevelFromName CallGetFromFlags (started [("log", "verbose")])
    = Err InvalidLevelName ∧
  call golog.GetLevelFromName (CallGetFromFlagsWriter rawWriter)
    (started [("flushlog", "verbose")]) = Err InvalidLevelName.
Proof.
  split.
  - eapply (invalid_level_name_surfaces CallGetFromFlags (started [("log", "verbose")])
              _ "verbose" "none" false); try reflexivity.
    left. vm_compute. intros H. by repeat (apply elem_of_cons in H as [H|H]; [discriminate|]);
      apply elem_of_nil in H.
  - eapply (invalid_level_name_surfaces (CallGetFromFlagsWriter rawWriter)
              (started [("flushlog", "verbose")]) _ "info" "verbose" false); try reflexivity.
    right. vm_compute. intros H. by repeat (apply elem_of_cons in H as [H|H]; [discriminate|]);
      apply elem_of_nil in H.
Defined.

Lemma calls_never_dereference_nil_witness :
  init (boot [("flushlog", "error")]) = Ok ((), started [("flushlog", "error")]) ∧
  calls golog.GetLevelFromName
    [CallGetFromFlags; CallGetFromFlagsDate; CallGetFromFlagsWriter rawWriter]
    (started [("flushlog", "error")]) ≠ Err NilDereference.
Proof.
  split; [reflexivity|].
  apply (calls_never_dereference_nil golog.GetLevelFromName
           (boot [("flushlog", "error")]) (started [("flushlog", "error")])).
  reflexivity.
Defined.

(** C9 as stated fails.  Under [-flushlog=verbose] the first call of
    [GetFromFlags] panics on the level name at line 86, after lines 81 and
    84 have set [thresholdName] and [logToStderr] to nil and before
    [logger] is assigned; a second call made from the state the first one
    left passes the guard and dereferences the nil [thresholdName]. *)
Lemma failed_first_call_then_nil_dereference :
  start [("flushlog", "verbose")] = Ok ((), started [("flushlog", "verbose")]) ∧
  (solo golog.GetLevelFromName CallGetFromFlags (started [("flushlog", "verbose")])).1
    = Panicked InvalidLevelName ∧
  logger (solo golog.GetLevelFromName CallGetFromFlags
            (started [("flushlog", "verbose")])).2 = None ∧
  thresholdName (solo golog.GetLevelFromName CallGetFromFlags
                   (started [("flushlog", "verbose")])).2 = None ∧
  GetFromFlags golog.GetLevelFromName
    (solo golog.GetLevelFromName CallGetFromFlags (started [("flushlog", "verbose")])).2
    = Err NilDereference ∧
  (schedule golog.GetLevelFromName (serial 2)
     (spawn [CallGetFromFlags; CallGetFromFlags] (started [("flushlog", "verbose")]))).1
    = [(CallGetFromFlags, Panicked InvalidLevelName);
       (CallGetFromFlags, Panicked NilDereference)].
Proof. split_and!; vm_compute; reflexivity. Qed.

Lemma buffered_construction_identical_witness :
  ∃ s1, logger (started [("log", "debug"); ("flushlog", "error")]) = None ∧
        resolveFlags golog.GetLevelFromName (started [("log", "debug"); ("flushlog", "error")])
          = Ok ((log.Debug, Stdout, log.Error), s1) ∧
        log.Error ≠ log.None ∧
        ∃ h s', heap s' !! h = Some (buflog_New Stdout log.Debug log.Error) ∧
          GetFromFlags golog.GetLevelFromName
            (started [("log", "debug"); ("flushlog", "error")]) = Ok (Some h, s') ∧
          GetFromFlagsDate golog.GetLevelFromName
            (started [("log", "debug"); ("flushlog", "error")]) = Ok (Some h, s') ∧
          (∀ w, GetFromFlagsWriter golog.GetLevelFromName w
                  (started [("log", "debug"); ("flushlog", "error")]) = Ok (Some h, s')) ∧
          (∀ w, GetFromFlagsDateWriter golog.GetLevelFromName w
                  (started [("log", "debug"); ("flushlog", "error")]) = Ok (Some h, s')).
Proof.
  eexists. split; [reflexivity|]. split; [reflexivity|]. split; [discriminate|].
  eapply (buffered_construction_identical golog.GetLevelFromName
            (started [("log", "debug"); ("flushlog", "error")]));
    [reflexivity|reflexivity|discriminate].
Defined.

(** * Further properties of the accessors *)

Close Scope string_scope.

Lemma set1_dom (m m' : gmap string flag.Flag) (name value : string) :
  flag.set1 m name value = Some m' → dom m' = dom m.
Proof.
  unfold flag.set1. intros H.
  destruct (m !! name) as [g|] eqn:Hg; simplify_eq/=.
  assert (name ∈ dom m) as Hin by (apply elem_of_dom; eauto).
  assert (∀ x, dom (<[name:=x]> m) = dom m) as Hins.
  { intros x. rewrite dom_insert_L. apply set_eq. intros y.
    rewrite elem_of_union, elem_of_singleton. split; [by intros [->|?]|by right]. }
  destruct (flag.Val g); simplify_eq/=; [done|].
  destruct (flag.ParseBool value); by simplify_eq/=.
Qed.

Lemma parseAll_dom (args : list (string * string)) (m m' : gmap string flag.Flag) :
  flag.parseAll m args = Some m' → dom m' = dom m.
Proof.
  revert m. induction args as [|[name value] args IH]; intros m H.
  - by simplify_eq/=.
  - cbn in H. destruct (flag.set1 m name value) as [m1|] eqn:H1; simplify_eq/=.
    rewrite (IH _ H). by eapply set1_dom.
Qed.

Section stdlog_more.

Variable GetLevelFromName : string → option log.Level.

#[local] Abbreviation resolveFlags := (resolveFlags GetLevelFromName).
#[local] Abbreviation call := (call GetLevelFromName).
#[local] Abbreviation calls := (calls GetLevelFromName).

(** The constructing call in full.  With the handle nil, the flags parsed
    (now or earlier) and the three pointers reading [nT], [b] and [nF],
    whose names resolve to [t] and [f]: accessor [c] returns a fresh
    handle, stores it in [logger], clears the three pointers, and the one
    object it adds is [buflog.New(getStream(b), t, f)] unless [f] is
    [log.None], in which case it is the [golog] constructor of [c]:
    [New], [NewDate], [NewWriter] or [NewDateWriter] on [getStream(b)] and
    [t] (and the writer). *)
Theorem first_call_builds (c : Call) (s s1 : State) (nT nF : string) (b : bool)
    (t f : log.Level) :
  logger s = None →
  ensureParsed s = Ok ((), s1) →
  loadString thresholdName s1 = Ok (nT, s1) →
  loadBool logToStderr s1 = Ok (b, s1) →
  loadString flushThresholdName s1 = Ok (nF, s1) →
  GetLevelFromName nT = Some t →
  GetLevelFromName nF = Some f →
  call c s =
    Ok (Some (length (heap s)),
        set_logger (Some (length (heap s)))
          (set_heap
             (heap s ++ [if decide (f = log.None) then direct c (getStream b) t
                         else buflog_New (getStream b) t f])
             (set_flushThresholdName None
                (set_logToStderr None (set_thresholdName None s1))))).
Proof.
  intros Hl HE HT HB HF Ht Hf.
  apply loadString_inv in HT as [_ HT]. apply loadBool_inv in HB as [_ HB].
  apply loadString_inv in HF as [_ HF].
  destruct (ensureParsed_frame _ _ HE) as (_ & _ & _ & _ & Hh & _).
  rewrite call_fresh by done.
  rewrite (resolveFlags_parsed _ _ _ _ _ _ HE HT HB HF), Ht, Hf. cbn.
  by rewrite Hh.
Qed.

(** A call only appends to the constructed loggers, and at most one. *)
Lemma call_heap (c : Call) (s s' : State) (r : option Handle) :
  call c s = Ok (r, s') →
  heap s `prefix_of` heap s' ∧ length (heap s') ≤ S (length (heap s)) ∧
  (logger s = None → r = Some (length (heap s)) ∧ length (heap s') = S (length (heap s))).
Proof.
  intros Hc. destruct (logger s) as [h|] eqn:Hl.
  - rewrite (call_stored _ _ _ _ Hl) in Hc. simplify_eq. split_and!; [done|lia|done].
  - rewrite call_fresh in Hc by done.
    destruct (resolveFlags s) as [[[[t o] f] s1]|] eqn:Hr; simplify_eq/=.
    destruct (resolveFlags_frame _ _ _ _ Hr) as (Hh & _). rewrite Hh.
    split_and!.
    + by apply prefix_app_r.
    + rewrite length_app. cbn. lia.
    + intros _. split; [done|]. rewrite length_app. cbn. lia.
Qed.

(** Any sequence of accessor calls made one after the other, from any
    state, that runs to its end hands every caller the same non-nil handle,
    constructs at most one logger and never touches the loggers that exist;
    started with the handle nil it constructs exactly one, at the first
    call. *)
Theorem calls_share_one_logger (cs : list Call) (s s' : State)
    (rs : list (option Handle)) :
  calls cs s = Ok (rs, s') →
  cs ≠ [] →
  ∃ h, rs = replicate (length cs) (Some h) ∧ logger s' = Some h ∧
       heap s `prefix_of` heap s' ∧ length (heap s') ≤ S (length (heap s)) ∧
       (logger s = None →
          h = length (heap s) ∧ length (heap s') = S (length (heap s))).
Proof.
  destruct cs as [|c cs]; [done|]. intros Hc _.
  cbn in Hc. unfold_M. fold (calls cs) in Hc.
  destruct (call c s) as [[r s1]|] eqn:H1; [|done].
  destruct (call_returns _ _ _ _ _ H1) as (h & -> & Hl1).
  rewrite (calls_stored _ cs s1 h Hl1) in Hc. simplify_eq.
  destruct (call_heap _ _ _ _ H1) as (Hp & Hle & Hn).
  exists h. split_and!; try done.
  intros Hl. destruct (Hn Hl) as [? ?]. by simplify_eq.
Qed.

(** From a state in which the pointers are wired, a call can fail in two
    ways only: [flag.Parse] exits, or a level name does not resolve; the
    latter happens only once the flags are parsed. *)
Theorem call_failures (c : Call) (s : State) (e : Panic) :
  wired s →
  call c s = Err e →
  logger s = None ∧
  ((e = FlagExit ∧ ensureParsed s = Err FlagExit) ∨
   (e = InvalidLevelName ∧ ∃ s1, ensureParsed s = Ok ((), s1))).
Proof.
  intros Hw Hc. destruct (logger s) as [h|] eqn:Hl.
  { by rewrite (call_stored _ _ _ _ Hl) in Hc. }
  split; [done|]. destruct Hw as [[h Hh]|(HT & HB & HF)]; [congruence|].
  rewrite call_fresh in Hc by done.
  destruct (ensureParsed s) as [[[] s1]|e'] eqn:HE.
  - right. destruct (ensureParsed_frame _ _ HE) as (_ & H1 & H2 & H3 & _ & Hk).
    destruct HT as [v HT], HB as [b HB], HF as [v' HF].
    destruct (holds_string_kind s s1 _ _ H1 Hk HT) as [nT HT1].
    destruct (holds_bool_kind s s1 _ _ H2 Hk HB) as [b1 HB1].
    destruct (holds_string_kind s s1 _ _ H3 Hk HF) as [nF HF1].
    rewrite (resolveFlags_parsed _ _ _ _ _ _ HE HT1 HB1 HF1) in Hc.
    split; [|by eexists].
    destruct (GetLevelFromName nT), (GetLevelFromName nF); by simplify_eq.
  - left. apply ensureParsed_fails in HE as Hfe. subst e'.
    unfold resolveFlags in Hc. unfold_M. rewrite HE in Hc. by simplify_eq.
Qed.

(** A call that returns keeps the set of defined flags and the command
    line; after a constructing call the flags count as parsed; and when
    they were parsed before the call, the call leaves every flag value as
    it was. *)
Theorem call_keeps_flags (c : Call) (s s' : State) (r : option Handle) :
  call c s = Ok (r, s') →
  dom (CommandLine s') = dom (CommandLine s) ∧ osArgs s' = osArgs s ∧
  (logger s = None → Parsed s' = true) ∧
  (Parsed s = true → CommandLine s' = CommandLine s ∧ Parsed s' = true).
Proof.
  intros Hc. destruct (logger s) as [h|] eqn:Hl.
  - rewrite (call_stored _ _ _ _ Hl) in Hc. by simplify_eq.
  - rewrite call_fresh in Hc by done.
    destruct (resolveFlags s) as [[[[t o] f] s1]|] eqn:Hr; simplify_eq/=.
    destruct (resolveFlags_frame _ _ _ _ Hr) as (_ & _ & Ha & HP & _).
    assert (dom (CommandLine s1) = dom (CommandLine s) ∧
            (Parsed s = true → CommandLine s1 = CommandLine s)) as [Hd Hs].
    { clear HP Ha. revert Hr. unfold resolveFlags, ensureParsed, flag_Parse,
        loadString, loadBool. unfold_M. intros Hr.
      destruct (Parsed s) eqn:HPs.
      - repeat (case_match; simplify_eq/=; try done).
      - destruct (flag.parseAll (CommandLine s) (osArgs s)) as [m|] eqn:Hm; [|done].
        apply parseAll_dom in Hm.
        repeat (case_match; simplify_eq/=; try done). }
    split_and!; try done. intros HPs. by rewrite Hs.
Qed.

(** Every logger an accessor constructs writes to the standard output or
    the standard error stream. *)
Theorem constructed_on_standard_stream (c : Call) (s s' : State) (h : Handle) :
  logger s = None →
  call c s = Ok (Some h, s') →
  ∃ obj, heap s' !! h = Some obj ∧ (sink obj = Stdout ∨ sink obj = Stderr).
Proof.
  intros Hl Hc. rewrite call_fresh in Hc by done.
  destruct (resolveFlags s) as [[[[t o] f] s1]|] eqn:Hr; simplify_eq/=.
  eexists. split; [by apply list_lookup_middle|].
  assert (o = Stdout ∨ o = Stderr) as Ho.
  { revert Hr. unfold resolveFlags, getStream. unfold_M. intros Hr.
    repeat (case_match; simplify_eq/=; try done); auto. }
  unfold constructed. case_decide; [|done]. by destruct c.
Qed.

End stdlog_more.

(** ** [init] against a flag set that already has one of its names *)

(** [init] panics with a flag redefinition as soon as one of its three
    names is already defined, for instance when it is run a second time. *)
Theorem init_redefinition (s : State) :
  is_Some (CommandLine s !! "log"%string) ∨
  is_Some (CommandLine s !! "stderr"%string) ∨
  is_Some (CommandLine s !! "flushlog"%string) →
  init s = Err FlagRedefined.
Proof.
  intros H. unfold init, flag_String, flag_Bool, flag_define. unfold_M. cbn.
  destruct (CommandLine s !! "log"%string) as [f1|] eqn:H1; [done|]. cbn.
  rewrite lookup_insert_ne by done.
  destruct (CommandLine s !! "stderr"%string) as [f2|] eqn:H2; [done|]. cbn.
  rewrite !lookup_insert_ne by done.
  destruct (CommandLine s !! "flushlog"%string) as [f3|] eqn:H3; [done|].
  destruct H as [[? ?]|[[? ?]|[? ?]]]; done.
Qed.

(** ** From the command line to the logger *)

Lemma parseAll_value (args : list (string * string)) (m m' : gmap string flag.Flag)
    (p : string) (f : flag.Flag) :
  flag.parseAll m args = Some m' → m !! p = Some f →
  ∃ f', m' !! p = Some f' ∧
        flag.Val f' = match flag.Val f with
                      | flag.stringValue v => flag.stringValue (lastString p v args)
                      | flag.boolValue b => flag.boolValue (lastBool p b args)
                      end.
Proof.
  revert m f. induction args as [|[n v] args IH]; intros m f H Hp.
  - simplify_eq/=. exists f. split; [done|]. by destruct (flag.Val f).
  - cbn in H. destruct (flag.set1 m n v) as [m1|] eqn:H1; simplify_eq/=.
    unfold flag.set1 in H1.
    destruct (m !! n) as [g|] eqn:Hg; simplify_eq/=.
    destruct (decide (n = p)) as [->|Hne].
    + rewrite Hp in Hg. injection Hg as <-.
      destruct (flag.Val f) as [v0|b0] eqn:Hv; simplify_eq/=.
      * destruct (IH _ _ H (lookup_insert_eq _ _ _)) as (f' & Hf' & Hv').
        exists f'. split; [done|]. by rewrite Hv'.
      * destruct (flag.ParseBool v) as [b'|] eqn:Hb; simplify_eq/=.
        destruct (IH _ _ H (lookup_insert_eq _ _ _)) as (f' & Hf' & Hv').
        exists f'. split; [done|]. by rewrite Hv'.
    + assert (m1 !! p = Some f) as Hp1.
      { destruct (flag.Val g); simplify_eq/=.
        - by rewrite lookup_insert_ne.
        - destruct (flag.ParseBool v); simplify_eq/=. by rewrite lookup_insert_ne. }
      apply (IH _ _ H Hp1).
Qed.

Lemma started_state (args : list (string * string)) :
  start args = Ok ((), started args) ∧
  Parsed (started args) = false ∧ osArgs (started args) = args ∧
  logger (started args) = None ∧ heap (started args) = [] ∧
  thresholdName (started args) = Some "log"%string ∧
  logToStderr (started args) = Some "stderr"%string ∧
  flushThresholdName (started args) = Some "flushlog"%string ∧
  flag.Val <$> CommandLine (started args) !! "log"%string
    = Some (flag.stringValue "info") ∧
  flag.Val <$> CommandLine (started args) !! "stderr"%string
    = Some (flag.boolValue false) ∧
  flag.Val <$> CommandLine (started args) !! "flushlog"%string
    = Some (flag.stringValue "none").
Proof. split_and!; reflexivity. Qed.

Section stdlog_command_line.

Variable GetLevelFromName : string → option log.Level.

#[local] Abbreviation resolveFlags := (resolveFlags GetLevelFromName).
#[local] Abbreviation call := (call GetLevelFromName).

(** The first call in a program that has only run [init]: the threshold
    is the level of the last [-log] value on the command line, or of
    [info] when there is none; the sink is [getStream] of the last
    [-stderr] value, or of [false]; the flush threshold is the level of
    the last [-flushlog] value, or of [none]. *)
Theorem command_line_overrides_defaults (args : list (string * string))
    (s1 : State) (t f : log.Level) (o : Stream) :
  resolveFlags (started args) = Ok ((t, o, f), s1) →
  GetLevelFromName (lastString "log" "info" args) = Some t ∧
  o = getStream (lastBool "stderr" false args) ∧
  GetLevelFromName (lastString "flushlog" "none" args) = Some f.
Proof.
  intros Hr.
  destruct (started_state args) as (_ & HP & Ha & _ & _ & HpT & HpB & HpF & HT & HB & HF).
  destruct (ensureParsed (started args)) as [[[] s0]|e] eqn:HE; last first.
  { revert Hr. unfold resolveFlags. unfold_M. by rewrite HE. }
  assert (flag.parseAll (CommandLine (started args)) args = Some (CommandLine s0) ∧
          thresholdName s0 = Some "log"%string ∧ logToStderr s0 = Some "stderr"%string ∧
          flushThresholdName s0 = Some "flushlog"%string) as (Hm & H1 & H2 & H3).
  { revert HE. unfold ensureParsed, flag_Parse. unfold_M. rewrite HP, Ha.
    destruct (flag.parseAll _ args) as [m|]; intros HE; simplify_eq/=. done. }
  destruct (CommandLine (started args) !! "log"%string) as [fT|] eqn:HlT; simplify_eq/=.
  destruct (CommandLine (started args) !! "stderr"%string) as [fB|] eqn:HlB; simplify_eq/=.
  destruct (CommandLine (started args) !! "flushlog"%string) as [fF|] eqn:HlF; simplify_eq/=.
  destruct (parseAll_value _ _ _ _ _ Hm HlT) as (fT' & HT' & HvT). rewrite HT in HvT.
  destruct (parseAll_value _ _ _ _ _ Hm HlB) as (fB' & HB' & HvB). rewrite HB in HvB.
  destruct (parseAll_value _ _ _ _ _ Hm HlF) as (fF' & HF' & HvF). rewrite HF in HvF.
  rewrite (resolveFlags_parsed GetLevelFromName _ s0
             (lastString "log" "info" args) (lastString "flushlog" "none" args)
             (lastBool "stderr" false args) HE) in Hr.
  - destruct (GetLevelFromName (lastString "log" "info" args)); [|done].
    destruct (GetLevelFromName (lastString "flushlog" "none" args)); by simplify_eq.
  - by exists "log"%string, fT'.
  - by exists "stderr"%string, fB'.
  - by exists "flushlog"%string, fF'.
Qed.

End stdlog_command_line.

(** ** Goroutines, continued *)

Section goroutines.

Variable GetLevelFromName : string → option log.Level.

#[local] Abbreviation call := (call GetLevelFromName).
#[local] Abbreviation calls := (calls GetLevelFromName).

Ltac advance := cbn [run step]; unfold exec; unfold_M; cbn [fst snd].

Lemma schedule_cons (i : nat) (sched : list nat) (p : Pool) :
  schedule GetLevelFromName (i :: sched) p = schedule GetLevelFromName sched (stepAt GetLevelFromName i p).
Proof. reflexivity. Qed.

Lemma schedule_app (sched1 sched2 : list nat) (p : Pool) :
  schedule GetLevelFromName (sched1 ++ sched2) p = schedule GetLevelFromName sched2 (schedule GetLevelFromName sched1 p).
Proof. apply foldl_app. Qed.

(** With the handle set, a goroutine at the guard returns it and one that
    has returned stays put; the state is not touched. *)
Lemma step_settled (c : Call) (g : Goroutine) (s : State) (h : Handle) :
  logger s = Some h →
  g = AtGuard ∨ g = Returned (Some h) →
  step GetLevelFromName c g s = (Returned (Some h), s).
Proof.
  intros Hl [->| ->]; [|done]. cbn. unfold exec. unfold_M. by rewrite Hl.
Qed.

Lemma stepAt_settled (j : nat) (gs : list (Call * Goroutine)) (s : State)
    (h : Handle) (c : Call) (g : Goroutine) :
  logger s = Some h → gs !! j = Some (c, g) →
  g = AtGuard ∨ g = Returned (Some h) →
  stepAt GetLevelFromName j (gs, s) = (<[j:=(c, Returned (Some h))]> gs, s).
Proof.
  intros Hl Hj Hg. unfold stepAt. cbn [fst snd]. rewrite Hj.
  by rewrite (step_settled c g s h Hl Hg).
Qed.

Lemma stepAt_absent (j : nat) (gs : list (Call * Goroutine)) (s : State) :
  gs !! j = None → stepAt GetLevelFromName j (gs, s) = (gs, s).
Proof. intros Hj. unfold stepAt. cbn [fst snd]. by rewrite Hj. Qed.

(** Once a call has stored the handle, goroutines may call the accessors
    under any schedule: the package variables, the flags and the loggers
    stay as they are, no goroutine panics, and every goroutine that has run
    at all has returned the stored handle. *)
Theorem initialised_then_any_schedule (cs : list Call) (s : State) (h : Handle)
    (sched : list nat) :
  logger s = Some h →
  (schedule GetLevelFromName sched (spawn cs s)).2 = s ∧
  length (schedule GetLevelFromName sched (spawn cs s)).1 = length cs ∧
  (∀ i c g, (schedule GetLevelFromName sched (spawn cs s)).1 !! i = Some (c, g) →
     cs !! i = Some c ∧
     (g = AtGuard ∨ g = Returned (Some h)) ∧
     (i ∈ sched → g = Returned (Some h))).
Proof.
  intros Hl. unfold spawn.
  assert (∀ sched (gs : list (Call * Goroutine)),
    (∀ i c g, gs !! i = Some (c, g) → g = AtGuard ∨ g = Returned (Some h)) →
    (schedule GetLevelFromName sched (gs, s)).2 = s ∧
    length (schedule GetLevelFromName sched (gs, s)).1 = length gs ∧
    (∀ i c g, (schedule GetLevelFromName sched (gs, s)).1 !! i = Some (c, g) →
       (∃ g0, gs !! i = Some (c, g0)) ∧
       (g = AtGuard ∨ g = Returned (Some h)) ∧
       (i ∈ sched ∨ gs !! i = Some (c, Returned (Some h)) → g = Returned (Some h))))
    as Hgen.
  { clear sched. induction sched as [|j sched IH]; intros gs Hgs.
    - cbn. split_and!; try done. intros i c g Hi. split_and!; [by eexists|by eapply Hgs|].
      intros [Hin|Hr]; [by apply elem_of_nil in Hin|]. by simplify_eq.
    - rewrite schedule_cons.
      destruct (gs !! j) as [[cj gj]|] eqn:Hj.
      + rewrite (stepAt_settled j gs s h cj gj Hl Hj (Hgs _ _ _ Hj)).
        destruct (IH (<[j:=(cj, Returned (Some h))]> gs)) as (Hs & Hlen & Hall).
        { intros i c g Hi. destruct (decide (i = j)) as [->|Hne].
          - rewrite list_lookup_insert_eq in Hi by (by eapply lookup_lt_Some).
            simplify_eq. by right.
          - rewrite list_lookup_insert_ne in Hi by done. by eapply Hgs. }
        split_and!; [done|by rewrite Hlen, length_insert|].
        intros i c g Hi. destruct (Hall _ _ _ Hi) as ([g0 Hg0] & Hg & Hret).
        destruct (decide (i = j)) as [->|Hne].
        * rewrite list_lookup_insert_eq in Hg0 by (by eapply lookup_lt_Some).
          simplify_eq. split_and!; [by eexists|done|].
          intros _. apply Hret. right.
          by rewrite list_lookup_insert_eq by (by eapply lookup_lt_Some).
        * rewrite list_lookup_insert_ne in Hg0 by done.
          split_and!; [by eexists|done|].
          intros [Hin|Hr].
          -- apply elem_of_cons in Hin as [->|Hin]; [done|]. apply Hret. by left.
          -- apply Hret. right. by rewrite list_lookup_insert_ne.
      + rewrite (stepAt_absent j gs s Hj).
        destruct (IH gs Hgs) as (Hs & Hlen & Hall). split_and!; try done.
        intros i c g Hi. destruct (Hall _ _ _ Hi) as ([g0 Hg0] & Hg & Hret).
        split_and!; [by eexists|done|].
        intros [Hin|Hr]; [|by apply Hret; right].
        apply elem_of_cons in Hin as [->|Hin]; [congruence|]. apply Hret. by left. }
  destruct (Hgen sched ((λ c, (c, AtGuard)) <$> cs)) as (Hs & Hlen & Hall).
  { intros i c g Hi. rewrite list_lookup_fmap in Hi.
    destruct (cs !! i); simplify_eq/=. by left. }
  split_and!; [done|by rewrite Hlen, length_fmap|].
  intros i c g Hi. destruct (Hall _ _ _ Hi) as ([g0 Hg0] & Hg & Hret).
  rewrite list_lookup_fmap in Hg0.
  destruct (cs !! i) as [c0|] eqn:Hc0; simplify_eq/=.
  split_and!; [done|done|]. intros Hin. apply Hret. by left.
Qed.

Lemma schedule_replicate (n i : nat) (gs : list (Call * Goroutine)) (s : State)
    (c : Call) (g : Goroutine) :
  gs !! i = Some (c, g) →
  schedule GetLevelFromName (replicate n i) (gs, s) = (<[i:=(c, (run GetLevelFromName n c g s).1)]> gs, (run GetLevelFromName n c g s).2).
Proof.
  revert gs s g. induction n as [|n IH]; intros gs s g Hi.
  - cbn. by rewrite list_insert_id.
  - cbn [replicate]. rewrite schedule_cons.
    unfold stepAt. cbn [fst snd]. rewrite Hi.
    cbn [run]. destruct (step GetLevelFromName c g s) as [g' s1].
    rewrite (IH _ s1 g') by (apply list_lookup_insert_eq; by eapply lookup_lt_Some).
    by rewrite list_insert_insert_eq.
Qed.

Lemma schedule_serial_from (cs : list Call) (finished : list (Call * Goroutine))
    (s s' : State) (rs : list (option Handle)) :
  calls cs s = Ok (rs, s') →
  schedule GetLevelFromName (flat_map (replicate 10) (seq (length finished) (length cs)))
           (finished ++ ((λ c, (c, AtGuard)) <$> cs), s)
  = (finished ++ zip cs (Returned <$> rs), s').
Proof.
  revert finished s rs. induction cs as [|c cs IH]; intros finished s rs Hc.
  - cbn in Hc. unfold_M. by simplify_eq.
  - cbn in Hc. unfold_M. fold (calls cs) in Hc.
    pose proof (solo_call GetLevelFromName c s) as Hsolo.
    destruct (call c s) as [[r s1]|] eqn:H1; [|done].
    destruct (calls cs s1) as [[rs' s2]|] eqn:H2; [|done]. simplify_eq.
    cbn [length seq flat_map fmap list_fmap]. rewrite schedule_app.
    rewrite (schedule_replicate 10 (length finished) _ s c AtGuard)
      by (by apply list_lookup_middle).
    fold (solo GetLevelFromName c s). rewrite Hsolo. cbn [fst snd].
    rewrite insert_app_r_alt by done. rewrite Nat.sub_diag. cbn [insert list_insert].
    specialize (IH (finished ++ [(c, Returned r)]) s1 rs' H2).
    rewrite length_app, <- app_assoc in IH. cbn [length app] in IH.
    rewrite Nat.add_1_r in IH. rewrite IH. by rewrite <- app_assoc.
Qed.

(** Goroutines that make their calls one after the other, each running its
    call to the end before the next starts, get what the same calls made
    in sequence return, and leave the same state. *)
Theorem serial_schedule_is_sequential (cs : list Call) (s s' : State)
    (rs : list (option Handle)) :
  calls cs s = Ok (rs, s') →
  schedule GetLevelFromName (serial (length cs)) (spawn cs s) = (zip cs (Returned <$> rs), s').
Proof.
  intros Hc. apply (schedule_serial_from cs [] s s' rs Hc).
Qed.

(** A first call that fails on the [flushlog] name has by then cleared
    [thresholdName] and [logToStderr] and left [logger] nil: the goroutine
    stops with [InvalidLevelName] in that state, and any accessor run from
    it panics on the nil [thresholdName]. *)
Theorem failed_call_leaves_nil_pointers (c c' : Call) (s s1 : State)
    (nT nF : string) (b : bool) (t : log.Level) :
  logger s = None →
  ensureParsed s = Ok ((), s1) →
  loadString thresholdName s1 = Ok (nT, s1) →
  loadBool logToStderr s1 = Ok (b, s1) →
  loadString flushThresholdName s1 = Ok (nF, s1) →
  GetLevelFromName nT = Some t →
  GetLevelFromName nF = None →
  solo GetLevelFromName c s = (Panicked InvalidLevelName, set_logToStderr None (set_thresholdName None s1)) ∧
  call c' (set_logToStderr None (set_thresholdName None s1)) = Err NilDereference.
Proof.
  intros Hl HE HT HB HF Ht Hf.
  assert (logger s1 = None ∧ Parsed s1 = true) as [Hl1 HP1].
  { revert HE. unfold ensureParsed, flag_Parse. unfold_M.
    destruct (Parsed s) eqn:HP; intros HE.
    - by simplify_eq.
    - destruct (flag.parseAll (CommandLine s) (osArgs s)); by simplify_eq/=. }
  split.
  - assert (loadBool logToStderr (set_thresholdName None s1)
            = Ok (b, set_thresholdName None s1)) as HB'.
    { apply loadBool_inv in HB as [_ (p & fl & ? & ? & ?)].
      apply loadBool_holds. by exists p, fl. }
    assert (loadString flushThresholdName (set_logToStderr None (set_thresholdName None s1))
            = Ok (nF, set_logToStderr None (set_thresholdName None s1))) as HF'.
    { apply loadString_inv in HF as [_ (p & fl & ? & ? & ?)].
      apply loadString_holds. by exists p, fl. }
    unfold solo. advance. rewrite Hl. advance. rewrite HE. advance.
    rewrite HT, Ht. advance. advance. rewrite HB'. advance. advance.
    rewrite HF', Hf. reflexivity.
  - rewrite call_fresh by done.
    unfold resolveFlags, ensureParsed, loadString. unfold_M. cbn. by rewrite HP1.
Qed.






End goroutines.

(** * The further properties on concrete runs *)

Open Scope string_scope.

Lemma first_call_builds_witness :
  call golog.GetLevelFromName CallGetFromFlagsDate (started [("log", "debug")]) =
    Ok (Some (length (heap (started [("log", "debug")]))),
        set_logger (Some (length (heap (started [("log", "debug")]))))
          (set_heap
             (heap (started [("log", "debug")]) ++
                [if decide (log.None = log.None)
                 then direct CallGetFromFlagsDate (getStream false) log.Debug
                 else buflog_New (getStream false) log.Debug log.None])%list
             (set_flushThresholdName None
                (set_logToStderr None
                   (set_thresholdName None
                      (after ensureParsed (started [("log", "debug")]))))))).
Proof.
  apply (first_call_builds golog.GetLevelFromName CallGetFromFlagsDate
           (started [("log", "debug")]) (after ensureParsed (started [("log", "debug")]))
           "debug" "none" false log.Debug log.None); vm_compute; reflexivity.
Defined.

Lemma calls_share_one_logger_witness :
  ∃ h, [Some 0; Some 0] = replicate (length [CallGetFromFlags; CallGetFromFlagsWriter rawWriter])
                            (Some h) ∧
    logger (after (calls golog.GetLevelFromName
                     [CallGetFromFlags; CallGetFromFlagsWriter rawWriter])
              (started [])) = Some h ∧
    heap (started []) `prefix_of`
      heap (after (calls golog.GetLevelFromName
                     [CallGetFromFlags; CallGetFromFlagsWriter rawWriter])
              (started [])) ∧
    (length (heap (after (calls golog.GetLevelFromName
                     [CallGetFromFlags; CallGetFromFlagsWriter rawWriter])
              (started []))) ≤ S (length (heap (started []))))%nat ∧
    (logger (started []) = None →
       h = length (heap (started [])) ∧
       length (heap (after (calls golog.GetLevelFromName
                     [CallGetFromFlags; CallGetFromFlagsWriter rawWriter])
              (started []))) = S (length (heap (started [])))).
Proof.
  apply (calls_share_one_logger golog.GetLevelFromName
           [CallGetFromFlags; CallGetFromFlagsWriter rawWriter] (started [])).
  - vm_compute; reflexivity.
  - discriminate.
Defined.

Lemma call_failures_witness :
  logger (started [("log", "verbose")]) = None ∧
  ((InvalidLevelName = FlagExit ∧ ensureParsed (started [("log", "verbose")]) = Err FlagExit) ∨
   (InvalidLevelName = InvalidLevelName ∧
    ∃ s1, ensureParsed (started [("log", "verbose")]) = Ok ((), s1))).
Proof.
  apply (call_failures golog.GetLevelFromName CallGetFromFlags
           (started [("log", "verbose")]) InvalidLevelName).
  - apply (init_wired (boot [("log", "verbose")])). vm_compute; reflexivity.
  - vm_compute; reflexivity.
Defined.

Lemma call_keeps_flags_witness :
  dom (CommandLine (after (call golog.GetLevelFromName CallGetFromFlags)
                      (started [("stderr", "1")])))
    = dom (CommandLine (started [("stderr", "1")])) ∧
  osArgs (after (call golog.GetLevelFromName CallGetFromFlags) (started [("stderr", "1")]))
    = osArgs (started [("stderr", "1")]) ∧
  (logger (started [("stderr", "1")]) = None →
   Parsed (after (call golog.GetLevelFromName CallGetFromFlags) (started [("stderr", "1")]))
     = true) ∧
  (Parsed (started [("stderr", "1")]) = true →
   CommandLine (after (call golog.GetLevelFromName CallGetFromFlags)
                  (started [("stderr", "1")]))
     = CommandLine (started [("stderr", "1")]) ∧
   Parsed (after (call golog.GetLevelFromName CallGetFromFlags) (started [("stderr", "1")]))
     = true).
Proof.
  apply (call_keeps_flags golog.GetLevelFromName CallGetFromFlags
           (started [("stderr", "1")]) _ (Some 0)).
  vm_compute; reflexivity.
Defined.

Lemma constructed_on_standard_stream_witness :
  ∃ obj, heap (after (call golog.GetLevelFromName CallGetFromFlags)
                 (started [("stderr", "1")])) !! 0 = Some obj ∧
         (sink obj = Stdout ∨ sink obj = Stderr).
Proof.
  apply (constructed_on_standard_stream golog.GetLevelFromName CallGetFromFlags
           (started [("stderr", "1")])); vm_compute; reflexivity.
Defined.

Lemma init_redefinition_witness :
  init (started []) = Err FlagRedefined.
Proof.
  apply (init_redefinition (started [])). left. vm_compute. by eexists.
Defined.

Lemma command_line_overrides_defaults_witness :
  golog.GetLevelFromName
    (lastString "log" "info" [("log", "debug"); ("stderr", "t"); ("log", "error")])
    = Some log.Error ∧
  Stderr = getStream (lastBool "stderr" false
                        [("log", "debug"); ("stderr", "t"); ("log", "error")]) ∧
  golog.GetLevelFromName
    (lastString "flushlog" "none" [("log", "debug"); ("stderr", "t"); ("log", "error")])
    = Some log.None.
Proof.
  apply (command_line_overrides_defaults golog.GetLevelFromName
           [("log", "debug"); ("stderr", "t"); ("log", "error")]
           (after (resolveFlags golog.GetLevelFromName)
              (started [("log", "debug"); ("stderr", "t"); ("log", "error")]))).
  vm_compute; reflexivity.
Defined.

Lemma initialised_then_any_schedule_witness :
  (schedule golog.GetLevelFromName [1; 0; 1; 1]
     (spawn [CallGetFromFlagsDate; CallGetFromFlagsWriter rawWriter; CallGetFromFlags]
        (after (call golog.GetLevelFromName CallGetFromFlags) (started [])))).2
  = after (call golog.GetLevelFromName CallGetFromFlags) (started []).
Proof.
  apply (initialised_then_any_schedule golog.GetLevelFromName
           [CallGetFromFlagsDate; CallGetFromFlagsWriter rawWriter; CallGetFromFlags]
           (after (call golog.GetLevelFromName CallGetFromFlags) (started [])) 0
           [1; 0; 1; 1]).
  vm_compute; reflexivity.
Defined.

Lemma serial_schedule_is_sequential_witness :
  schedule golog.GetLevelFromName (serial (length [CallGetFromFlags; CallGetFromFlagsDate]))
    (spawn [CallGetFromFlags; CallGetFromFlagsDate] (started [("flushlog", "error")]))
  = (zip [CallGetFromFlags; CallGetFromFlagsDate] (Returned <$> [Some 0; Some 0]),
     after (calls golog.GetLevelFromName [CallGetFromFlags; CallGetFromFlagsDate])
       (started [("flushlog", "error")])).
Proof.
  apply (serial_schedule_is_sequential golog.GetLevelFromName
           [CallGetFromFlags; CallGetFromFlagsDate] (started [("flushlog", "error")])).
  vm_compute; reflexivity.
Defined.

Lemma failed_call_leaves_nil_pointers_witness :
  solo golog.GetLevelFromName CallGetFromFlags (started [("flushlog", "verbose")])
    = (Panicked InvalidLevelName,
       set_logToStderr None
         (set_thresholdName None (after ensureParsed (started [("flushlog", "verbose")])))) ∧
  call golog.GetLevelFromName CallGetFromFlagsDate
    (set_logToStderr None
       (set_thresholdName None (after ensureParsed (started [("flushlog", "verbose")]))))
    = Err NilDereference.
Proof.
  apply (failed_call_leaves_nil_pointers golog.GetLevelFromName
           CallGetFromFlags CallGetFromFlagsDate (started [("flushlog", "verbose")])
           (after ensureParsed (started [("flushlog", "verbose")]))
           "info" "verbose" false log.Info); vm_compute; reflexivity.
Defined.

